(** * Digiplay Gaming SDK: a shallow embedding of [digiplay_gaming_sdk.py]

    The Python module is embedded as functions in a state-and-exception
    monad over a [world] that holds
    - the store of dict objects (Python dicts are mutable and passed by
      reference, so a record is a location in the store),
    - the trace of observable effects (log records, HTTP POSTs, sleeps,
      event fetches and handler calls), in the order they happen,
    - the wall clock read by [int(time.time())],
    - the remote endpoint: what the n-th POST of the run is answered with,
    - the attributes of the event listener object, which the polling loop
      and the tasks that call [stop_listening] share.
*)

From Stdlib Require Import ZArith String List Lia.
From Stdlib Require Import Floats.PrimFloat.
From stdpp Require Import base option gmap strings list.

Set Warnings "-register-all,-inexact-float".

Local Open Scope Z_scope.
Local Open Scope string_scope.
Local Open Scope list_scope.

(** ** Python values *)

(** Identity of a dict object in the store. *)
Definition loc := positive.

(** The values the SDK stores in its records: [str], [int], [float]
    (IEEE binary64, as in CPython) and references to other dicts. *)
Inductive pyval : Type :=
| VStr (s : string)
| VInt (n : Z)
| VFloat (f : float)
| VRef (l : loc).

(** A Python exception: its class name, its message and the exception it
    carries ([__cause__] / [__context__]), if any. *)
Inductive pyexc : Type :=
| PyExc (cls : string) (msg : string) (cause : option pyexc).

Definition exc_class (e : pyexc) : string := let 'PyExc c _ _ := e in c.
Definition exc_msg (e : pyexc) : string := let 'PyExc _ m _ := e in m.

(** [Exception(msg)] raised outside any handler: nothing is chained. *)
Definition Exception (msg : string) : pyexc := PyExc "Exception" msg None.

(** A parsed JSON document, the result of [response.json()]. *)
Inductive json : Type :=
| JNull
| JBool (b : bool)
| JNum (n : Z)
| JStr (s : string)
| JArr (items : list json)
| JObj (members : list (string * json)).

(** ** Observable effects *)

Inductive level : Type := DEBUG | INFO | WARNING | ERROR.

(** The values an f-string interpolates into a log message; the message
    keeps a [{}] where each one goes. *)
Inductive log_arg : Type :=
| ArgStr (s : string)
| ArgInt (n : Z)
| ArgDict (d : gmap string pyval)
| ArgExc (e : pyexc).

(** A blockchain event, as handed to the callback. *)
Definition event := gmap string pyval.

Inductive effect : Type :=
| Log (lvl : level) (msg : string) (args : list log_arg)
| Post (url : string) (body : gmap string pyval) (timeout : Z)
| Sleep (secs : Z)
| Fetch
| Callback (ev : event).

(** What the remote endpoint does with one POST. *)
Inductive http_outcome : Type :=
| NetworkError (e : pyexc)                     (* connection error or timeout *)
| Responded (status : Z) (body : option json). (* body: [None] if it is not JSON *)

(** The mutable attributes of a [BlockchainEventListener]; its callback is
    fixed at construction and is a parameter of the loop below. *)
Record BlockchainEventListener : Type := { running : bool }.

Record world : Type := World {
  heap : gmap loc (gmap string pyval);
  trace : list effect;
  clock : Z;
  sent : nat;
  remote : nat -> http_outcome;
  event_listener : BlockchainEventListener
}.

(** ** The monad *)

Inductive result (A : Type) : Type :=
| Ok (a : A)
| Raise (e : pyexc).
Arguments Ok {A} a.
Arguments Raise {A} e.

Definition M (A : Type) : Type := world -> result A * world.

#[export] Instance M_ret : MRet M := fun A a w => (Ok a, w).

#[export] Instance M_bind : MBind M := fun A B k m w =>
  match m w with
  | (Ok a, w') => k a w'
  | (Raise e, w') => (Raise e, w')
  end.

Definition raise {A : Type} (e : pyexc) : M A := fun w => (Raise e, w).

(** [try: body / except Exception as e: handler e]. Every exception of
    this model is an [Exception]; task cancellation, which [except
    Exception] lets through, is not modelled. *)
Definition try_except {A : Type} (body : M A) (handler : pyexc -> M A) : M A :=
  fun w =>
    match body w with
    | (Ok a, w') => (Ok a, w')
    | (Raise e, w') => handler e w'
    end.

Definition emit (e : effect) : M unit := fun w =>
  (Ok tt, World (heap w) (trace w ++ [e]) (clock w) (sent w) (remote w)
       (event_listener w)).

Definition log (lvl : level) (msg : string) (args : list log_arg) : M unit :=
  emit (Log lvl msg args).

(** [logger.exception(msg)]: an ERROR record with the active exception. *)
Definition log_exception (msg : string) (e : pyexc) : M unit :=
  log ERROR msg [ArgExc e].

(** [int(time.time())]. *)
Definition time_time : M Z := fun w => (Ok (clock w), w).

(** [await asyncio.sleep(secs)]: the task is suspended for [secs] seconds. *)
Definition sleep (secs : Z) : M unit := fun w =>
  (Ok tt, World (heap w) (trace w ++ [Sleep secs]) (clock w + Z.max 0 secs)
             (sent w) (remote w) (event_listener w)).

(** A dict display [{...}] allocates a new object. *)
Definition new_dict (d : gmap string pyval) : M loc := fun w =>
  let l := fresh (dom (heap w)) in
  (Ok l, World (<[l := d]> (heap w)) (trace w) (clock w) (sent w) (remote w)
       (event_listener w)).

(** Reading a dict through a reference. Every reference a Python program
    holds is live; a location outside the store stands for an argument
    that is not a dict, on which subscripting raises [TypeError]. *)
Definition read_dict (l : loc) : M (gmap string pyval) := fun w =>
  match heap w !! l with
  | Some d => (Ok d, w)
  | None => (Raise (PyExc "TypeError" "object is not subscriptable" None), w)
  end.

(** [d[k] = v]: item assignment, in place. *)
Definition setitem (l : loc) (k : string) (v : pyval) : M unit := fun w =>
  match heap w !! l with
  | Some d =>
      (Ok tt, World (<[l := <[k := v]> d]> (heap w)) (trace w) (clock w)
                (sent w) (remote w) (event_listener w))
  | None =>
      (Raise (PyExc "TypeError" "object does not support item assignment" None), w)
  end.

(** ** Formatting values into an f-string *)

(** CPython limits the conversion of an [int] to a decimal string
    ([sys.get_int_max_str_digits()], 4300 by default): converting an int
    of more digits raises [ValueError]. *)
Definition INT_MAX_STR_DIGITS : Z := 4300.

(** Whether [str(n)] succeeds: [n] has at most 4300 decimal digits. *)
Definition int_formats (n : Z) : bool :=
  (Z.abs n <? 10 ^ INT_MAX_STR_DIGITS)%Z.

(** Whether [repr(v)] succeeds. A string and a float always convert; an
    int converts within the limit; a dict converts if all its values do,
    and a dict met again while it is being converted is written [{...}].
    [visiting] holds the dicts being converted, [fuel] bounds the depth.
    An object that is not a dict of the store is not looked into. *)
Fixpoint value_formats (fuel : nat) (h : gmap loc (gmap string pyval))
    (visiting : list loc) (v : pyval) {struct fuel} : bool :=
  match v with
  | VStr _ => true
  | VFloat _ => true
  | VInt n => int_formats n
  | VRef l =>
      match fuel with
      | O => true
      | S fuel' =>
          if bool_decide (l ∈ visiting) then true
          else match h !! l with
               | Some d =>
                   bool_decide
                     (map_Forall
                        (fun _ x =>
                           value_formats fuel' h (l :: visiting) x = true)
                        d)
               | None => true
               end
      end
  end.

(** Depth enough to reach every dict of the store. *)
Definition repr_fuel (h : gmap loc (gmap string pyval)) : nat := S (size h).

(** Whether a value interpolated into an f-string converts to text. *)
Definition arg_formats (h : gmap loc (gmap string pyval)) (a : log_arg)
    : bool :=
  match a with
  | ArgStr _ => true
  | ArgExc _ => true
  | ArgInt n => int_formats n
  | ArgDict d =>
      bool_decide
        (map_Forall (fun _ x => value_formats (repr_fuel h) h [] x = true) d)
  end.

(** Building the f-string: every interpolated value is converted to text,
    and the first that does not convert raises. *)
Definition fstring (args : list log_arg) : M unit := fun w =>
  if forallb (arg_formats (heap w)) args
  then (Ok tt, w)
  else (Raise (PyExc "ValueError"
                 "Exceeds the limit (4300 digits) for integer string conversion"
                 None), w).

(** [logger.<level>(f"...")] with values that may fail to convert: the
    f-string is built first, then the record is logged. It is used where
    the caller supplies ints (the token records); [log] alone is used for
    the records that hold only strings, floats, exceptions and timestamps,
    a timestamp read from a real clock being the integer part of a float,
    which always converts. *)
Definition log_fstring (lvl : level) (msg : string) (args : list log_arg)
    : M unit :=
  fstring args;;
  log lvl msg args.

(** ** Global configuration *)

Record Config : Type := {
  DIGIBYTE_API_URL : string;
  NETWORK : string;
  RETRY_ATTEMPTS : Z;
  RETRY_DELAY : Z;
  EVENT_POLL_INTERVAL : Z
}.

Definition default_Config : Config := {|
  DIGIBYTE_API_URL := "https://api.digibyte.io";
  NETWORK := "mainnet";
  RETRY_ATTEMPTS := 3;
  RETRY_DELAY := 3;
  EVENT_POLL_INTERVAL := 10
|}.

(** ** Wallet module *)

Record Wallet : Type := {
  private_key : string;
  address : string
}.

Definition _create_new_wallet : string * string :=
  ("securely_generated_private_key", "D8SampleAddress1234567890").

Definition _generate_address_from_key (private_key : string) : string :=
  "D8DerivedAddressFromKey".

(** Truth value of a [str] in [if private_key:]: the empty string is false
    (and so is [None], the other inhabitant of [Optional[str]]). *)
Definition truthy (s : string) : bool :=
  match s with
  | "" => false
  | _ => true
  end.

Definition Wallet_init (key : option string) : M Wallet :=
  try_except
    (let generated :=
       let '(pk, addr) := _create_new_wallet in
       {| private_key := pk; address := addr |} in
     self ← mret (match key with
                  | Some k =>
                      if truthy k
                      then {| private_key := k;
                              address := _generate_address_from_key k |}
                      else generated
                  | None => generated
                  end);
     log INFO "Wallet initialized. Address: {}" [ArgStr (address self)];;
     mret self)
    (fun e => log_exception "Error initializing wallet." e;; raise e).

(** ** Transaction module *)

Record TransactionManager : Type := { wallet : Wallet }.

Definition DEFAULT_FEE : float := 0.001%float.

Definition create_transaction (self : TransactionManager) (to_address : string)
    (amount : float) (fee : option float) : M loc :=
  try_except
    (now ← time_time;
     let d : gmap string pyval :=
       <["timestamp" := VInt now]>
       (<["fee" := VFloat (default DEFAULT_FEE fee)]>
       (<["amount" := VFloat amount]>
       (<["to" := VStr to_address]>
       (<["from" := VStr (address (wallet self))]> ∅)))) in
     transaction ← new_dict d;
     log DEBUG "Transaction created: {}" [ArgDict d];;
     mret transaction)
    (fun e => log_exception "Failed to create transaction." e;; raise e).

Definition sign_transaction (self : TransactionManager) (transaction : loc)
    : M loc :=
  try_except
    (setitem transaction "signature" (VStr "signed_with_private_key");;
     log DEBUG "Transaction signed successfully." [];;
     mret transaction)
    (fun e => log_exception "Transaction signing failed." e;; raise e).

(** *** Broadcasting *)

(** An HTTP response: status code and body ([None] when it is not JSON). *)
Definition response : Type := Z * option json.

(** [session.post(url, json=body, timeout=t)] on a fresh [ClientSession]:
    the request leaves, and the endpoint answers it with its next outcome. *)
Definition session_post (url : string) (body : gmap string pyval)
    (timeout : Z) : M response := fun w =>
  let w' := World (heap w) (trace w ++ [Post url body timeout]) (clock w)
              (S (sent w)) (remote w) (event_listener w) in
  match remote w (sent w) with
  | NetworkError e => (Raise e, w')
  | Responded status body => (Ok (status, body), w')
  end.

(** aiohttp's [raise_for_status] raises on status codes from 400 up. *)
Definition raise_for_status (r : response) : M unit :=
  if (400 <=? fst r)%Z
  then raise (PyExc "ClientResponseError" "bad status" None)
  else mret tt.

Definition response_json (r : response) : M json :=
  match snd r with
  | Some data => mret data
  | None => raise (PyExc "ContentTypeError" "body is not JSON" None)
  end.

(** The body of [for attempt in range(...)], for the attempts that remain;
    once none remains the code after the loop runs. [return data] inside
    the [try] leaves the function, the handler falls through to the next
    iteration. *)
Fixpoint broadcast_attempts (cfg : Config) (signed_transaction : loc)
    (attempt : Z) (remaining : nat) : M json :=
  match remaining with
  | O =>
      log ERROR "All transaction broadcast attempts failed." [];;
      raise (Exception "Transaction broadcast failed.")
  | S remaining' =>
      returned ← try_except
        (body ← read_dict signed_transaction;
         resp ← session_post (String.append (DIGIBYTE_API_URL cfg) "/broadcast") body 10;
         raise_for_status resp;;
         data ← response_json resp;
         log INFO "Transaction broadcast successfully." [];;
         mret (Some data))
        (fun e =>
           log WARNING "Broadcast attempt {} failed: {}"
             [ArgInt (attempt + 1); ArgExc e];;
           sleep (RETRY_DELAY cfg);;
           mret None);
      match returned with
      | Some data => mret data
      | None =>
          broadcast_attempts cfg signed_transaction (attempt + 1) remaining'
      end
  end.

(** [range(n)] is empty for [n <= 0]. *)
Definition broadcast_transaction (cfg : Config) (signed_transaction : loc)
    : M json :=
  broadcast_attempts cfg signed_transaction 0 (Z.to_nat (RETRY_ATTEMPTS cfg)).

(** ** Tokenization module *)

Record TokenManager : Type := { tk_wallet : Wallet }.

Definition create_token (self : TokenManager) (token_name : string)
    (total_supply : Z) : M loc :=
  try_except
    (now ← time_time;
     let d : gmap string pyval :=
       <["timestamp" := VInt now]>
       (<["total_supply" := VInt total_supply]>
       (<["token_name" := VStr token_name]>
       (<["issuer" := VStr (address (tk_wallet self))]> ∅))) in
     token_data ← new_dict d;
     log_fstring DEBUG "Token created: {}" [ArgDict d];;
     mret token_data)
    (fun e => log_exception "Token creation failed." e;; raise e).

Definition transfer_token (self : TokenManager) (token : loc)
    (to_address : string) (amount : Z) : M loc :=
  try_except
    (now ← time_time;
     let d : gmap string pyval :=
       <["timestamp" := VInt now]>
       (<["amount" := VInt amount]>
       (<["to" := VStr to_address]>
       (<["from" := VStr (address (tk_wallet self))]>
       (<["token" := VRef token]> ∅)))) in
     transfer_data ← new_dict d;
     log_fstring DEBUG "Token transfer initiated: {}" [ArgDict d];;
     mret transfer_data)
    (fun e => log_exception "Token transfer failed." e;; raise e).

(** ** Blockchain event listener module *)

(** [BlockchainEventListener.__init__]. *)
Definition BlockchainEventListener_init : BlockchainEventListener :=
  {| running := false |}.

Definition set_running (b : bool) : M unit := fun w =>
  (Ok tt, World (heap w) (trace w) (clock w) (sent w) (remote w)
            {| running := b |}).

Definition get_running : M bool := fun w =>
  (Ok (running (event_listener w)), w).

Definition stop_listening : M unit :=
  set_running false;;
  log INFO "Blockchain event listener stopped." [].

(** A call made on the listener by code other than the loop: by another
    task while the loop is suspended in an [await], or by the callback. The
    class offers [stop_listening]; a second, concurrent [start_listening]
    on the same object is outside this model. *)
Inductive call : Type := StopListening.

Fixpoint run_calls (calls : list call) : M unit :=
  match calls with
  | [] => mret tt
  | StopListening :: rest => stop_listening;; run_calls rest
  end.

(** What the caller-supplied callback does with an event: the calls it
    makes on the listener, and the exception it ends with, if any. *)
Record handler_run : Type := {
  cb_calls : list call;
  cb_raises : option pyexc
}.

(** One turn of the loop as the environment shapes it: what
    [_get_blockchain_events] gives, and what other tasks do while the loop
    awaits the fetch and while it sleeps. *)
Record cycle : Type := {
  fetched : pyexc + list event;
  during_fetch : list call;
  during_sleep : list call
}.

(** The placeholder fetch of the source returns the empty list. *)
Definition _get_blockchain_events : pyexc + list event := inr [].

(** A turn of the loop with the source's placeholder fetch, which never
    suspends. *)
Definition placeholder_cycle (calls_during_sleep : list call) : cycle :=
  {| fetched := _get_blockchain_events;
     during_fetch := [];
     during_sleep := calls_during_sleep |}.

(** [await self._get_blockchain_events()]. *)
Definition await_events (c : cycle) : M (list event) :=
  emit Fetch;;
  run_calls (during_fetch c);;
  match fetched c with
  | inr events => mret events
  | inl e => raise e
  end.

(** [self.callback(event)]. *)
Definition invoke (callback : event -> handler_run) (ev : event) : M unit :=
  emit (Callback ev);;
  run_calls (cb_calls (callback ev));;
  match cb_raises (callback ev) with
  | Some e => raise e
  | None => mret tt
  end.

(** [for event in events: self.callback(event)]. *)
Fixpoint for_each_event (callback : event -> handler_run)
    (events : list event) : M unit :=
  match events with
  | [] => mret tt
  | ev :: rest => invoke callback ev;; for_each_event callback rest
  end.

(** How a run of the loop over a finite schedule ends: the coroutine
    returned, or the schedule ran out with the loop still going. *)
Inductive loop_status : Type := Returned | StillPolling.

(** The body of the [while]: fetch and dispatch under the [try], then the
    sleep, during which other tasks run. *)
Definition poll_once (cfg : Config) (callback : event -> handler_run)
    (c : cycle) : M unit :=
  try_except
    (events ← await_events c;
     for_each_event callback events)
    (fun e => log_exception "Error in event listener loop." e);;
  sleep (EVENT_POLL_INTERVAL cfg);;
  run_calls (during_sleep c).

(** [while self.running: ...], one [cycle] of the schedule per turn. *)
Fixpoint listening_loop (cfg : Config) (callback : event -> handler_run)
    (schedule : list cycle) : M loop_status :=
  go ← get_running;
  if go : bool then
    match schedule with
    | [] => mret StillPolling
    | c :: rest =>
        poll_once cfg callback c;;
        listening_loop cfg callback rest
    end
  else mret Returned.

Definition start_listening (cfg : Config) (callback : event -> handler_run)
    (schedule : list cycle) : M loop_status :=
  set_running true;;
  log INFO "Blockchain event listener started." [];;
  listening_loop cfg callback schedule.

(** ** Main interface *)

Record DigiplayGamingSDK : Type := {
  sdk_wallet : Wallet;
  tx_manager : TransactionManager;
  token_manager : TokenManager;
  sdk_event_listener : option BlockchainEventListener
}.

Definition DigiplayGamingSDK_init (wallet_private_key : option string)
    : M DigiplayGamingSDK :=
  w ← Wallet_init wallet_private_key;
  log INFO "Digiplay Gaming SDK initialized." [];;
  mret {| sdk_wallet := w;
          tx_manager := {| wallet := w |};
          token_manager := {| tk_wallet := w |};
          sdk_event_listener := None |}.

Definition send_payment (cfg : Config) (self : DigiplayGamingSDK)
    (to_address : string) (amount : float) : M json :=
  tx ← create_transaction (tx_manager self) to_address amount None;
  signed_tx ← sign_transaction (tx_manager self) tx;
  broadcast_transaction cfg signed_tx.

(** ** Reading the store and the trace *)

(** [r[k]] for the record at [l], if there is one and it has the key. *)
Definition field (w : world) (l : loc) (k : string) : option pyval :=
  heap w !! l ≫= fun d => d !! k.

Definition is_post (e : effect) : bool :=
  match e with Post _ _ _ => true | _ => false end.

Definition is_sleep (e : effect) : bool :=
  match e with Sleep _ => true | _ => false end.

Definition is_fetch (e : effect) : bool :=
  match e with Fetch => true | _ => false end.

Definition is_callback (e : effect) : bool :=
  match e with Callback _ => true | _ => false end.

(** How many effects of a kind a trace holds. *)
Definition count (kind : effect -> bool) (t : list effect) : nat :=
  length (List.filter kind t).

(** ** Sample data for the examples below *)

Definition accepting_endpoint : nat -> http_outcome :=
  fun _ => Responded 200 (Some (JObj [("status", JStr "accepted")])).

(** A fresh run: empty store, nothing observed yet, no request sent. *)
Definition initial_world (endpoint : nat -> http_outcome) : world :=
  World ∅ [] 1700000000 0 endpoint BlockchainEventListener_init.

Definition sample_wallet : Wallet :=
  {| private_key := "securely_generated_private_key";
     address := "D8SampleAddress1234567890" |}.

Definition sample_manager : TransactionManager := {| wallet := sample_wallet |}.

Definition sample_token_manager : TokenManager := {| tk_wallet := sample_wallet |}.

(** The record [create_transaction] builds, as a value. *)
Definition transaction_record (from_address to_address : string)
    (amount fee : float) (timestamp : Z) : gmap string pyval :=
  <["timestamp" := VInt timestamp]>
  (<["fee" := VFloat fee]>
  (<["amount" := VFloat amount]>
  (<["to" := VStr to_address]>
  (<["from" := VStr from_address]> ∅)))).

(** A store that holds one unsigned payment record, at location 1. *)
Definition unsigned_payment : gmap string pyval :=
  transaction_record "D8SampleAddress1234567890" "D8RecipientAddress0987654321"
    0.1%float DEFAULT_FEE 1700000000.

Definition world_with_payment : world :=
  World {[ 1%positive := unsigned_payment ]} [] 1700000000 0 accepting_endpoint
    BlockchainEventListener_init.

Definition signed_payment : gmap string pyval :=
  <["signature" := VStr "signed_with_private_key"]> unsigned_payment.

(** A store that holds the signed payment at location 1, facing a given
    endpoint. *)
Definition world_with_signed_payment (endpoint : nat -> http_outcome) : world :=
  World {[ 1%positive := signed_payment ]} [] 1700000000 0 endpoint
    BlockchainEventListener_init.

Definition timeout_error : pyexc := PyExc "TimeoutError" "timed out" None.


(** An endpoint that answers every request with status 500. *)
Definition failing_endpoint : nat -> http_outcome :=
  fun _ => Responded 500 None.


Definition sample_sdk : DigiplayGamingSDK :=
  {| sdk_wallet := sample_wallet;
     tx_manager := sample_manager;
     token_manager := sample_token_manager;
     sdk_event_listener := None |}.

(** The default configuration with retries switched off. *)
Definition no_retry_Config : Config := {|
  DIGIBYTE_API_URL := "https://api.digibyte.io";
  NETWORK := "mainnet";
  RETRY_ATTEMPTS := 0;
  RETRY_DELAY := 3;
  EVENT_POLL_INTERVAL := 10
|}.

(** The log records of a run of [stop_listening] calls. *)
Definition stopped_logs (calls : list call) : list effect :=
  map (fun _ => Log INFO "Blockchain event listener stopped." []) calls.

(** A callback that only takes note of the event. *)
Definition quiet_callback : event -> handler_run :=
  fun _ => {| cb_calls := []; cb_raises := None |}.

Definition sample_event : event := {[ "type" := VStr "payment" ]}.

(** ** One submission attempt, seen from outside *)

(** What the [try] body of an attempt comes to for an outcome of the
    endpoint: the exception it raises or the data it returns (lemmas
    [attempt_failed] and [attempt_succeeded] tie it to the code). *)
Definition attempt_result (o : http_outcome) : pyexc + json :=
  match o with
  | NetworkError e => inl e
  | Responded status body =>
      if (400 <=? status)%Z
      then inl (PyExc "ClientResponseError" "bad status" None)
      else match body with
           | Some data => inr data
           | None => inl (PyExc "ContentTypeError" "body is not JSON" None)
           end
  end.

Definition broadcast_url (cfg : Config) : string :=
  String.append (DIGIBYTE_API_URL cfg) "/broadcast".

(** The effects of one failed attempt: the request, the warning with the
    attempt's number and error, the delay. *)
Definition failed_attempt (cfg : Config) (body : gmap string pyval)
    (attempt : Z) (e : pyexc) : list effect :=
  [Post (broadcast_url cfg) body 10;
   Log WARNING "Broadcast attempt {} failed: {}" [ArgInt (attempt + 1); ArgExc e];
   Sleep (RETRY_DELAY cfg)].

Fixpoint failed_attempts (cfg : Config) (body : gmap string pyval)
    (attempt : Z) (errors : list pyexc) : list effect :=
  match errors with
  | [] => []
  | e :: rest =>
      failed_attempt cfg body attempt e
        ++ failed_attempts cfg body (attempt + 1) rest
  end.

(** The effects of the successful attempt. *)
Definition successful_attempt (cfg : Config) (body : gmap string pyval)
    : list effect :=
  [Post (broadcast_url cfg) body 10;
   Log INFO "Transaction broadcast successfully." []].

(** ** Reading the dispatches off a trace *)

(** The events a trace shows as handed to the callback, in order. *)
Fixpoint dispatched (t : list effect) : list event :=
  match t with
  | [] => []
  | Callback ev :: rest => ev :: dispatched rest
  | _ :: rest => dispatched rest
  end.

(** The record of an exception caught in the polling loop. *)
Definition loop_error (e : pyexc) : effect :=
  Log ERROR "Error in event listener loop." [ArgExc e].

(** A turn during which nobody calls the listener. *)
Definition undisturbed (c : cycle) : Prop :=
  during_fetch c = [] /\ during_sleep c = [].

(** A turn whose fetch fails. *)
Definition failing_fetch (e : pyexc) : cycle :=
  {| fetched := inl e; during_fetch := []; during_sleep := [] |}.

(** A turn whose fetch gives a batch, undisturbed. *)
Definition batch (events : list event) : cycle :=
  {| fetched := inr events; during_fetch := []; during_sleep := [] |}.

(** The record [sign_transaction] leaves behind for a record. *)
Definition signed (d : gmap string pyval) : gmap string pyval :=
  <["signature" := VStr "signed_with_private_key"]> d.


(** The default configuration with a negative number of attempts. *)
Definition negative_retry_Config : Config := {|
  DIGIBYTE_API_URL := "https://api.digibyte.io";
  NETWORK := "mainnet";
  RETRY_ATTEMPTS := -2;
  RETRY_DELAY := 3;
  EVENT_POLL_INTERVAL := 10
|}.

(** The records [create_token] and [transfer_token] build, as values. *)
Definition token_record (issuer token_name : string) (total_supply : Z)
    (timestamp : Z) : gmap string pyval :=
  <["timestamp" := VInt timestamp]>
  (<["total_supply" := VInt total_supply]>
  (<["token_name" := VStr token_name]>
  (<["issuer" := VStr issuer]> ∅))).

Definition transfer_record (token : loc) (from_address to_address : string)
    (amount : Z) (timestamp : Z) : gmap string pyval :=
  <["timestamp" := VInt timestamp]>
  (<["amount" := VInt amount]>
  (<["to" := VStr to_address]>
  (<["from" := VStr from_address]>
  (<["token" := VRef token]> ∅)))).

(** ** The phases of one turn of the polling loop *)

(** Whether the callback calls the listener when handed an event. *)
Definition makes_calls (callback : event -> handler_run) (ev : event) : bool :=
  match cb_calls (callback ev) with
  | [] => false
  | _ => true
  end.

(** The listener after some calls on it: any call clears the flag. *)
Definition after_calls (calls : list call) (self : BlockchainEventListener)
    : BlockchainEventListener :=
  {| running := match calls with
                | [] => running self
                | _ => false
                end |}.

(** The world once the fetch of a turn has been awaited. *)
Definition after_fetch (c : cycle) (w : world) : world :=
  World (heap w) (trace w ++ Fetch :: stopped_logs (during_fetch c)) (clock w)
    (sent w) (remote w) (after_calls (during_fetch c) (event_listener w)).

(** The world at the end of a turn, from the world in which the [try]
    statement was left, with the exception it caught, if any. *)
Definition end_of_turn (cfg : Config) (c : cycle) (caught : option pyexc)
    (w : world) : world :=
  World (heap w)
    (trace w
       ++ match caught with Some e => [loop_error e] | None => [] end
       ++ Sleep (EVENT_POLL_INTERVAL cfg) :: stopped_logs (during_sleep c))
    (clock w + Z.max 0 (EVENT_POLL_INTERVAL cfg)) (sent w) (remote w)
    (after_calls (during_sleep c) (event_listener w)).

(** The exception a result carries, if it is one. *)
Definition raised {A : Type} (r : result A) : option pyexc :=
  match r with
  | Ok _ => None
  | Raise e => Some e
  end.

(** More sample data for the listener *)

Definition second_event : event := {[ "type" := VStr "token_transfer" ]}.

Definition handler_error : pyexc := PyExc "ValueError" "unknown event" None.

(** A callback that raises on token transfers and takes note of the rest. *)
Definition picky_callback : event -> handler_run :=
  fun ev =>
    match ev !! "type" with
    | Some (VStr kind) =>
        if String.eqb kind "token_transfer"
        then {| cb_calls := []; cb_raises := Some handler_error |}
        else {| cb_calls := []; cb_raises := None |}
    | _ => {| cb_calls := []; cb_raises := None |}
    end.

(** A world in which the loop is at its top with the flag set. *)
Definition polling_world : world :=
  World ∅ [] 1700000000 0 accepting_endpoint {| running := true |}.

(** A turn with a one-event batch during whose fetch another task stops
    the listener. *)
Definition stopped_while_fetching : cycle :=
  {| fetched := inr [sample_event];
     during_fetch := [StopListening];
     during_sleep := [] |}.

(** ** Records that format *)

(** A value that converts to text whatever the store holds: a string, a
    float, or an int within the limit. *)
Definition formats_flat (v : pyval) : Prop :=
  match v with
  | VStr _ => True
  | VFloat _ => True
  | VInt n => int_formats n = true
  | VRef _ => False
  end.

(** A record all of whose values are such, as the token records
    [create_token] makes are when their ints are within the limit. *)
Definition record_formats (d : gmap string pyval) : Prop :=
  map_Forall (fun _ v => formats_flat v) d.

(** The exception an f-string raises on an int beyond the limit. *)
Definition int_too_long : pyexc :=
  PyExc "ValueError"
    "Exceeds the limit (4300 digits) for integer string conversion" None.

(** A supply of 4301 digits. *)
Definition oversized_supply : Z := 10 ^ 4300.


(** ** The spec's reading of an attempt *)

(** The spec counts an attempt as a success on a 2xx response with a
    parseable body, and as a failure on a network error, a timeout or any
    non-2xx response. This is that reading, to set beside [attempt_result],
    which is the code's: [Some data] on success, [None] on failure. *)
Definition spec_attempt_result (o : http_outcome) : option json :=
  match o with
  | NetworkError _ => None
  | Responded status body =>
      if ((200 <=? status) && (status <=? 299))%Z then body else None
  end.





(** ** The rhythm of the polling loop *)

(** The fetches and the sleeps of a trace, in the order they happen. *)
Definition rhythm (t : list effect) : list effect :=
  List.filter (fun e => is_fetch e || is_sleep e) t.

(** The rhythm of [n] turns: a fetch, then a sleep of the poll interval,
    [n] times over. *)
Fixpoint turns_rhythm (cfg : Config) (n : nat) : list effect :=
  match n with
  | O => []
  | S n' => Fetch :: Sleep (EVENT_POLL_INTERVAL cfg) :: turns_rhythm cfg n'
  end.

(** * Properties *)

(** ** Wallet *)

Lemma Wallet_init_no_key (w : world) :
  fst (Wallet_init None w) = Ok sample_wallet.
Proof. reflexivity. Qed.

Lemma Wallet_init_empty_key (w : world) :
  fst (Wallet_init (Some "") w) = Ok sample_wallet.
Proof. reflexivity. Qed.

Lemma Wallet_init_nonempty_key (k : string) (w : world) :
  k <> "" ->
  fst (Wallet_init (Some k) w) =
    Ok {| private_key := k; address := "D8DerivedAddressFromKey" |}.
Proof.
  intros Hk. destruct k as [|c k]; [congruence|]. reflexivity.
Qed.

(** C9, as stated, fails at the empty string: it is a supplied key string,
    but [if private_key:] takes it for no key, so the wallet gets the sample
    address and not the derived one. *)
Lemma Wallet_init_empty_key_not_derived :
  fst (Wallet_init (Some "") (initial_world accepting_endpoint)) =
    Ok {| private_key := "securely_generated_private_key";
          address := "D8SampleAddress1234567890" |}
  /\ "D8SampleAddress1234567890" <> "D8DerivedAddressFromKey".
Proof. split; [reflexivity | discriminate]. Qed.

(** C9 (amended): for every supplied non-empty key string the wallet keeps
    the key and its address is the constant "D8DerivedAddressFromKey",
    whatever the key (so two wallets from different non-empty keys share
    their address); a wallet created with no key, or with the empty string,
    has address "D8SampleAddress1234567890" and private key
    "securely_generated_private_key". *)
Theorem Wallet_init_address (k k' : string) (w w' : world) :
  k <> "" -> k' <> "" ->
  fst (Wallet_init (Some k) w) =
    Ok {| private_key := k; address := "D8DerivedAddressFromKey" |}
  /\ (exists a b, fst (Wallet_init (Some k) w) = Ok a
              /\ fst (Wallet_init (Some k') w') = Ok b
              /\ address a = address b)
  /\ fst (Wallet_init None w) =
       Ok {| private_key := "securely_generated_private_key";
             address := "D8SampleAddress1234567890" |}
  /\ fst (Wallet_init (Some "") w) =
       Ok {| private_key := "securely_generated_private_key";
             address := "D8SampleAddress1234567890" |}.
Proof.
  intros Hk Hk'.
  pose proof (Wallet_init_nonempty_key k w Hk) as E.
  pose proof (Wallet_init_nonempty_key k' w' Hk') as E'.
  split; [exact E|]. split.
  - eexists _, _. split; [exact E|]. split; [exact E'|]. reflexivity.
  - split; [apply Wallet_init_no_key | apply Wallet_init_empty_key].
Qed.

Lemma Wallet_init_address_witness :
  "alice-key" <> "" /\ "bob-key" <> "" /\
  fst (Wallet_init (Some "alice-key") (initial_world accepting_endpoint)) =
    Ok {| private_key := "alice-key"; address := "D8DerivedAddressFromKey" |}.
Proof.
  split; [discriminate|]. split; [discriminate|].
  apply (Wallet_init_address "alice-key" "bob-key"
           (initial_world accepting_endpoint) (initial_world accepting_endpoint));
    discriminate.
Defined.

(** ** Transaction builder *)

(** What [create_transaction] does, on any input: it allocates the record
    at a fresh location, logs it and returns the location. *)
Lemma create_transaction_run (self : TransactionManager) (to_address : string)
    (amount : float) (fee : option float) (w : world) :
  create_transaction self to_address amount fee w =
    (Ok (fresh (dom (heap w))),
     World
       (<[fresh (dom (heap w)) :=
            transaction_record (address (wallet self)) to_address amount
              (default DEFAULT_FEE fee) (clock w)]> (heap w))
       (trace w ++
          [Log DEBUG "Transaction created: {}"
             [ArgDict (transaction_record (address (wallet self)) to_address
                         amount (default DEFAULT_FEE fee) (clock w))]])
       (clock w) (sent w) (remote w) (event_listener w)).
Proof. reflexivity. Qed.

Lemma fresh_location_unused (w : world) : heap w !! fresh (dom (heap w)) = None.
Proof. apply not_elem_of_dom, is_fresh. Qed.

(** C1, as stated, fails: the builder validates nothing. With an empty
    recipient, a negative amount and a negative fee it returns a record. *)
Lemma create_transaction_invalid_input_accepted :
  (-1 <? 0)%float = true /\
  fst (create_transaction sample_manager "" (-1)%float (Some (-1)%float)
         (initial_world accepting_endpoint)) = Ok 1%positive.
Proof. split; reflexivity. Qed.

(** C1 (amended): [create_transaction] never fails, on any input: it checks
    no constraint, so an empty [to_address] or a negative [amount] or [fee]
    is accepted like any other value and a record is returned. *)
Theorem create_transaction_never_fails (self : TransactionManager)
    (to_address : string) (amount : float) (fee : option float) (w : world) :
  exists l w', create_transaction self to_address amount fee w = (Ok l, w').
Proof. rewrite create_transaction_run. eauto. Qed.

(** C8: for every valid input (non-empty [to_address], [amount >= 0],
    [fee >= 0]) the record [create_transaction] returns has no [signature]
    key, and its [from] is the wallet's address. *)
Theorem create_transaction_unsigned (self : TransactionManager)
    (to_address : string) (amount : float) (fee : option float) (w : world) :
  to_address <> "" ->
  (0 <=? amount)%float = true ->
  (0 <=? default DEFAULT_FEE fee)%float = true ->
  exists l w' d,
    create_transaction self to_address amount fee w = (Ok l, w')
    /\ heap w' !! l = Some d
    /\ d !! "signature" = None
    /\ d !! "from" = Some (VStr (address (wallet self))).
Proof.
  intros _ _ _. rewrite create_transaction_run.
  eexists _, _, _. split; [reflexivity|]. split.
  - simpl. apply lookup_insert_eq.
  - split; reflexivity.
Qed.

Lemma create_transaction_unsigned_witness :
  "D8RecipientAddress0987654321" <> "" /\
  (0 <=? 0.1)%float = true /\
  (0 <=? default DEFAULT_FEE None)%float = true /\
  exists l w' d,
    create_transaction sample_manager "D8RecipientAddress0987654321"
      0.1%float None (initial_world accepting_endpoint) = (Ok l, w')
    /\ heap w' !! l = Some d
    /\ d !! "signature" = None
    /\ d !! "from" = Some (VStr "D8SampleAddress1234567890").
Proof.
  split; [discriminate|]. split; [reflexivity|]. split; [reflexivity|].
  apply (create_transaction_unsigned sample_manager
           "D8RecipientAddress0987654321" 0.1%float None
           (initial_world accepting_endpoint));
    [discriminate | reflexivity | reflexivity].
Defined.

(** ** Signer *)

Lemma sign_transaction_run (self : TransactionManager) (l : loc)
    (d : gmap string pyval) (w : world) :
  heap w !! l = Some d ->
  sign_transaction self l w =
    (Ok l,
     World (<[l := <["signature" := VStr "signed_with_private_key"]> d]> (heap w))
       (trace w ++ [Log DEBUG "Transaction signed successfully." []])
       (clock w) (sent w) (remote w) (event_listener w)).
Proof.
  intros Hl. unfold sign_transaction, try_except, mbind, M_bind, setitem.
  rewrite Hl. reflexivity.
Qed.

(** C2, as stated, fails: [sign_transaction] writes the signature into the
    record it is given and returns that same record. The unsigned payment at
    location 1 has no signature before the call and has one after it. *)
Lemma sign_transaction_mutates_its_input :
  field world_with_payment 1%positive "signature" = None
  /\ fst (sign_transaction sample_manager 1%positive world_with_payment)
       = Ok 1%positive
  /\ field (snd (sign_transaction sample_manager 1%positive world_with_payment))
         1%positive "signature"
       = Some (VStr "signed_with_private_key").
Proof. repeat split; reflexivity. Qed.

(** C2 (amended): [sign_transaction r] updates [r] in place and returns the
    same object: after the call [r] has [signature] set to
    "signed_with_private_key", every other field of [r] is as it was, and no
    other record of the store is touched. *)
Theorem sign_transaction_in_place (self : TransactionManager) (l : loc)
    (d : gmap string pyval) (w : world) :
  heap w !! l = Some d ->
  exists w',
    sign_transaction self l w = (Ok l, w')
    /\ field w' l "signature" = Some (VStr "signed_with_private_key")
    /\ (forall k, k <> "signature" -> field w' l k = field w l k)
    /\ (forall l', l' <> l -> heap w' !! l' = heap w !! l').
Proof.
  intros Hl. rewrite (sign_transaction_run self l d w Hl).
  eexists. split; [reflexivity|]. unfold field. simpl.
  rewrite lookup_insert_eq, Hl. simpl. split.
  - apply lookup_insert_eq.
  - split.
    + intros k Hk. apply lookup_insert_ne. congruence.
    + intros l' Hl'. apply lookup_insert_ne. congruence.
Qed.

Lemma sign_transaction_in_place_witness :
  heap world_with_payment !! 1%positive = Some unsigned_payment
  /\ exists w',
       sign_transaction sample_manager 1%positive world_with_payment
         = (Ok 1%positive, w')
       /\ field w' 1%positive "signature"
            = Some (VStr "signed_with_private_key")
       /\ (forall k, k <> "signature" ->
             field w' 1%positive k = field world_with_payment 1%positive k)
       /\ (forall l', l' <> 1%positive ->
             heap w' !! l' = heap world_with_payment !! l').
Proof.
  split; [reflexivity|].
  apply (sign_transaction_in_place sample_manager 1%positive unsigned_payment
           world_with_payment).
  reflexivity.
Defined.

(** ** Token manager *)

Lemma count_app (kind : effect -> bool) (t1 t2 : list effect) :
  count kind (t1 ++ t2) = (count kind t1 + count kind t2)%nat.
Proof. unfold count. rewrite List.filter_app, length_app. reflexivity. Qed.

Lemma formats_flat_ok (fuel : nat) (h : gmap loc (gmap string pyval))
    (visiting : list loc) (v : pyval) :
  formats_flat v -> value_formats fuel h visiting v = true.
Proof.
  intros Hv. destruct fuel; destruct v; simpl in *; auto; contradiction.
Qed.

(** A reference to a record that formats converts, at any depth. *)
Lemma reference_formats (fuel : nat) (h : gmap loc (gmap string pyval))
    (l : loc) (d : gmap string pyval) :
  h !! l = Some d ->
  record_formats d ->
  value_formats (S fuel) h [] (VRef l) = true.
Proof.
  intros Hl Hd. cbn [value_formats].
  rewrite bool_decide_eq_false_2 by (apply not_elem_of_nil).
  rewrite Hl. apply bool_decide_eq_true_2.
  intros k v Hk. apply formats_flat_ok. exact (Hd k v Hk).
Qed.

Lemma fstring_dict_ok (d : gmap string pyval) (w : world) :
  map_Forall
    (fun _ x => value_formats (repr_fuel (heap w)) (heap w) [] x = true) d ->
  fstring [ArgDict d] w = (Ok tt, w).
Proof.
  intros Hd. unfold fstring. cbn [forallb arg_formats].
  rewrite bool_decide_eq_true_2 by exact Hd. reflexivity.
Qed.

Lemma fstring_dict_int_too_long (d : gmap string pyval) (k : string) (n : Z)
    (w : world) :
  d !! k = Some (VInt n) ->
  int_formats n = false ->
  fstring [ArgDict d] w = (Raise int_too_long, w).
Proof.
  intros Hk Hn. unfold fstring. cbn [forallb arg_formats].
  rewrite bool_decide_eq_false_2; [reflexivity|].
  intros Hd. specialize (Hd k (VInt n) Hk). unfold repr_fuel in Hd.
  cbn [value_formats] in Hd. congruence.
Qed.

(** What [create_token] does when its ints are within the limit: it
    allocates the record at a fresh location, logs it and returns the
    location. *)
Lemma create_token_result (self : TokenManager) (token_name : string)
    (total_supply : Z) (w : world) :
  int_formats (clock w) = true ->
  int_formats total_supply = true ->
  create_token self token_name total_supply w =
    (Ok (fresh (dom (heap w))),
     World
       (<[fresh (dom (heap w)) :=
            token_record (address (tk_wallet self)) token_name total_supply
              (clock w)]> (heap w))
       (trace w ++
          [Log DEBUG "Token created: {}"
             [ArgDict (token_record (address (tk_wallet self)) token_name
                         total_supply (clock w))]])
       (clock w) (sent w) (remote w) (event_listener w)).
Proof.
  intros Hclock Hsupply.
  unfold create_token, try_except, log_fstring.
  unfold mbind at 1, M_bind at 1, time_time.
  unfold mbind at 1, M_bind at 1, new_dict.
  unfold mbind at 1, M_bind at 1. unfold mbind at 1, M_bind at 1.
  rewrite fstring_dict_ok; [reflexivity|].
  unfold repr_fuel. cbn [heap].
  repeat (apply map_Forall_insert_2;
          [cbn [value_formats]; first [reflexivity | assumption]|]).
  apply map_Forall_empty.
Qed.

(** What [transfer_token] does when its ints are within the limit and the
    token is a record that formats. *)
Lemma transfer_token_result (self : TokenManager) (token : loc)
    (td : gmap string pyval) (to_address : string) (amount : Z) (w : world) :
  int_formats (clock w) = true ->
  int_formats amount = true ->
  heap w !! token = Some td ->
  record_formats td ->
  transfer_token self token to_address amount w =
    (Ok (fresh (dom (heap w))),
     World
       (<[fresh (dom (heap w)) :=
            transfer_record token (address (tk_wallet self)) to_address amount
              (clock w)]> (heap w))
       (trace w ++
          [Log DEBUG "Token transfer initiated: {}"
             [ArgDict (transfer_record token (address (tk_wallet self))
                         to_address amount (clock w))]])
       (clock w) (sent w) (remote w) (event_listener w)).
Proof.
  intros Hclock Hamount Htoken Htd.
  unfold transfer_token, try_except, log_fstring.
  unfold mbind at 1, M_bind at 1, time_time.
  unfold mbind at 1, M_bind at 1, new_dict.
  unfold mbind at 1, M_bind at 1. unfold mbind at 1, M_bind at 1.
  rewrite fstring_dict_ok; [reflexivity|].
  unfold repr_fuel. cbn [heap].
  assert (Hkept : <[fresh (dom (heap w)) :=
                      transfer_record token (address (tk_wallet self))
                        to_address amount (clock w)]> (heap w) !! token
                  = Some td).
  { rewrite lookup_insert_ne; [exact Htoken|].
    intros Heq. rewrite <- Heq in Htoken.
    rewrite fresh_location_unused in Htoken. discriminate. }
  repeat (apply map_Forall_insert_2;
          [first [ apply (reference_formats _ _ token td Hkept Htd)
                 | cbn [value_formats]; first [reflexivity | assumption] ]|]).
  apply map_Forall_empty.
Qed.

(** The limit is the only way [create_token] fails: with a supply beyond
    it the f-string raises, the handler logs the exception and re-raises
    it, and no record is returned. *)
Lemma create_token_supply_too_long (self : TokenManager) (token_name : string)
    (total_supply : Z) (w : world) :
  int_formats total_supply = false ->
  exists w',
    create_token self token_name total_supply w = (Raise int_too_long, w')
    /\ trace w' =
         trace w ++ [Log ERROR "Token creation failed." [ArgExc int_too_long]]
    /\ sent w' = sent w.
Proof.
  intros Hsupply.
  unfold create_token, try_except, log_fstring.
  unfold mbind at 1, M_bind at 1, time_time.
  unfold mbind at 1, M_bind at 1, new_dict.
  unfold mbind at 1, M_bind at 1. unfold mbind at 1, M_bind at 1.
  rewrite (fstring_dict_int_too_long _ "total_supply" total_supply)
    by (reflexivity || exact Hsupply).
  eexists. split; [reflexivity|]. split; reflexivity.
Qed.

Example create_token_oversized_supply :
  fst (create_token sample_token_manager "GOLD" oversized_supply
         (initial_world accepting_endpoint)) = Raise int_too_long.
Proof.
  destruct (create_token_supply_too_long sample_token_manager "GOLD"
              oversized_supply (initial_world accepting_endpoint))
    as (w' & -> & _); [vm_compute|]; reflexivity.
Qed.




(** ** Broadcaster *)

Section Broadcaster.

(** The configuration in force, the record to submit and its content. *)
Variable cfg : Config.
Variable tx : loc.
Variable d : gmap string pyval.

Ltac run_attempt :=
  cbn [broadcast_attempts];
  unfold try_except, mbind, M_bind, mret, M_ret, read_dict, session_post,
    raise_for_status, response_json, log, emit, sleep, raise.

(** An attempt that fails is followed by the warning and the delay, and the
    loop goes on with the next attempt. *)
Lemma attempt_failed (attempt : Z) (remaining : nat) (e : pyexc) (w : world) :
  heap w !! tx = Some d ->
  attempt_result (remote w (sent w)) = inl e ->
  broadcast_attempts cfg tx attempt (S remaining) w =
    broadcast_attempts cfg tx (attempt + 1) remaining
      (World (heap w) (trace w ++ failed_attempt cfg d attempt e)
         (clock w + Z.max 0 (RETRY_DELAY cfg)) (S (sent w)) (remote w)
         (event_listener w)).
Proof.
  intros Hl He. run_attempt. rewrite Hl.
  unfold attempt_result in He.
  destruct (remote w (sent w)) as [e0 | status body]; simpl in *.
  - inversion He; subst. rewrite <- !app_assoc. reflexivity.
  - destruct (400 <=? status)%Z; simpl in *.
    + inversion He; subst. rewrite <- !app_assoc. reflexivity.
    + destruct body as [data|]; simpl in *; [discriminate|].
      inversion He; subst. rewrite <- !app_assoc. reflexivity.
Qed.

(** An attempt that succeeds returns its data at once. *)
Lemma attempt_succeeded (attempt : Z) (remaining : nat) (data : json) (w : world) :
  heap w !! tx = Some d ->
  attempt_result (remote w (sent w)) = inr data ->
  broadcast_attempts cfg tx attempt (S remaining) w =
    (Ok data,
     World (heap w) (trace w ++ successful_attempt cfg d) (clock w)
       (S (sent w)) (remote w) (event_listener w)).
Proof.
  intros Hl Hd. run_attempt. rewrite Hl.
  unfold attempt_result in Hd.
  destruct (remote w (sent w)) as [e0 | status body]; simpl in *;
    [discriminate|].
  destruct (400 <=? status)%Z; simpl in *; [discriminate|].
  destruct body as [data'|]; simpl in *; [|discriminate].
  inversion Hd; subst. rewrite <- !app_assoc. reflexivity.
Qed.

(** With no attempt left the error is logged and the exception raised. *)
Lemma attempts_exhausted (attempt : Z) (w : world) :
  broadcast_attempts cfg tx attempt 0 w =
    (Raise (Exception "Transaction broadcast failed."),
     World (heap w)
       (trace w ++ [Log ERROR "All transaction broadcast attempts failed." []])
       (clock w) (sent w) (remote w) (event_listener w)).
Proof. reflexivity. Qed.

Lemma count_failed_attempts (errors : list pyexc) (attempt : Z) :
  count is_post (failed_attempts cfg d attempt errors) = length errors
  /\ count is_sleep (failed_attempts cfg d attempt errors) = length errors.
Proof.
  revert attempt. induction errors as [|e errors IH]; intros attempt.
  - split; reflexivity.
  - destruct (IH (attempt + 1)) as [IHp IHs].
    cbn [failed_attempts]. rewrite !count_app, IHp, IHs. split; reflexivity.
Qed.


(** [n] failures in a row, with attempts to spare or not: the loop makes
    the [n] attempts and is then where it would be with [n] attempts less. *)
Lemma attempts_fail (n : nat) :
  forall (attempt : Z) (remaining : nat) (w : world),
    heap w !! tx = Some d ->
    (forall k, (k < n)%nat ->
       exists e, attempt_result (remote w (sent w + k)%nat) = inl e) ->
    exists errors w',
      length errors = n
      /\ broadcast_attempts cfg tx attempt (n + remaining) w =
           broadcast_attempts cfg tx (attempt + Z.of_nat n) remaining w'
      /\ heap w' = heap w
      /\ trace w' = trace w ++ failed_attempts cfg d attempt errors
      /\ sent w' = (sent w + n)%nat
      /\ remote w' = remote w
      /\ event_listener w' = event_listener w.
Proof.
  induction n as [|n IH]; intros attempt remaining w Hl Hfail.
  - exists [], w. rewrite Z.add_0_r, app_nil_r, Nat.add_0_r.
    repeat split; reflexivity.
  - destruct (Hfail 0%nat ltac:(lia)) as [e He].
    rewrite Nat.add_0_r in He.
    cbn [Nat.add]. rewrite (attempt_failed attempt _ e w Hl He).
    match goal with |- context [broadcast_attempts _ _ _ _ ?w1] =>
      destruct (IH (attempt + 1) remaining w1) as
        (errors & w' & Hlen & Hrun & Hh & Ht & Hs & Hr & Hev)
    end.
    + exact Hl.
    + intros k Hk. simpl.
      destruct (Hfail (S k) ltac:(lia)) as [e' He'].
      exists e'. rewrite <- He'. f_equal. f_equal. lia.
    + exists (e :: errors), w'. simpl in *.
      rewrite Hrun, Hh, Ht, Hs, Hr, Hev, Hlen, <- !app_assoc.
      replace (attempt + Z.of_nat (S n)) with (attempt + 1 + Z.of_nat n)
        by lia.
      repeat split; try reflexivity; lia.
Qed.


(** When every attempt fails, the loop runs dry: one request, one warning
    and one delay per configured attempt, then the error record and the
    exception. *)
Lemma broadcast_all_fail (w : world) :
  heap w !! tx = Some d ->
  (forall k, exists e, attempt_result (remote w k) = inl e) ->
  exists errors w',
    broadcast_transaction cfg tx w =
      (Raise (Exception "Transaction broadcast failed."), w')
    /\ length errors = Z.to_nat (RETRY_ATTEMPTS cfg)
    /\ trace w' =
         trace w ++ failed_attempts cfg d 0 errors
           ++ [Log ERROR "All transaction broadcast attempts failed." []]
    /\ sent w' = (sent w + Z.to_nat (RETRY_ATTEMPTS cfg))%nat.
Proof.
  intros Hl Hfail. unfold broadcast_transaction.
  destruct (attempts_fail (Z.to_nat (RETRY_ATTEMPTS cfg)) 0 0%nat w Hl)
    as (errors & w1 & Hlen & Hrun & Hh & Ht & Hs & Hr & Hev).
  { intros k _. apply Hfail. }
  rewrite Nat.add_0_r in Hrun. rewrite Hrun, attempts_exhausted.
  eexists errors, _. split; [reflexivity|]. simpl.
  rewrite Ht, <- app_assoc. auto.
Qed.



(** C5: with [RETRY_ATTEMPTS = 0], [broadcast_transaction] raises the
    exhaustion exception at once: no request is sent and no delay is
    taken, only the error record is logged. *)
Theorem broadcast_zero_attempts (w : world) :
  RETRY_ATTEMPTS cfg = 0 ->
  exists w',
    broadcast_transaction cfg tx w =
      (Raise (Exception "Transaction broadcast failed."), w')
    /\ trace w' =
         trace w ++ [Log ERROR "All transaction broadcast attempts failed." []]
    /\ count is_post (trace w') = count is_post (trace w)
    /\ count is_sleep (trace w') = count is_sleep (trace w)
    /\ sent w' = sent w
    /\ clock w' = clock w.
Proof.
  intros Hcfg. unfold broadcast_transaction. rewrite Hcfg.
  change (Z.to_nat 0) with 0%nat. rewrite attempts_exhausted.
  eexists. split; [reflexivity|]. simpl. rewrite !count_app.
  unfold count. simpl. repeat split; lia.
Qed.


End Broadcaster.

(** *** Concrete runs of the broadcaster *)


(** The code's notion of a failed attempt, spelled out. *)
Lemma attempt_fails_iff (o : http_outcome) :
  (exists e, attempt_result o = inl e) <->
  match o with
  | NetworkError _ => True
  | Responded status body => 400 <= status \/ body = None
  end.
Proof.
  unfold attempt_result. destruct o as [e | status body].
  - split; eauto.
  - destruct (Z.leb_spec 400 status) as [Hge | Hlt].
    + split; eauto.
    + destruct body as [data|].
      * split; [intros [e He]; discriminate | intros [H | H]; [lia | discriminate]].
      * split; eauto.
Qed.

Lemma attempt_succeeds_iff (o : http_outcome) (data : json) :
  attempt_result o = inr data <->
  exists status, o = Responded status (Some data) /\ status < 400.
Proof.
  unfold attempt_result. destruct o as [e | status body].
  - split; [discriminate | intros (st & H & _); discriminate].
  - destruct (Z.leb_spec 400 status) as [Hge | Hlt].
    + split; [discriminate | intros (st & H & Hst); inversion H; subst; lia].
    + destruct body as [data'|].
      * split.
        -- intros H. inversion H; subst. eauto.
        -- intros (st & H & _). inversion H; subst. reflexivity.
      * split; [discriminate | intros (st & H & _); discriminate].
Qed.

(** What fails for the code fails for the spec; the converse does not
    hold: the answers the spec takes for failures and the code for
    successes are those with a JSON body and a status below 400 outside
    200..299. *)
Lemma code_failure_is_spec_failure (o : http_outcome) (e : pyexc) :
  attempt_result o = inl e -> spec_attempt_result o = None.
Proof.
  unfold attempt_result, spec_attempt_result.
  destruct o as [e0 | status body]; [reflexivity|].
  destruct (Z.leb_spec 400 status) as [Hge | Hlt].
  - intros _. destruct (Z.leb_spec status 299); [lia|].
    rewrite andb_false_r. reflexivity.
  - destruct body as [data|]; [discriminate|]. intros _.
    destruct ((200 <=? status) && (status <=? 299))%Z; reflexivity.
Qed.




Lemma broadcast_zero_attempts_witness :
  RETRY_ATTEMPTS no_retry_Config = 0
  /\ exists w',
       broadcast_transaction no_retry_Config 1%positive
         (world_with_signed_payment accepting_endpoint) =
         (Raise (Exception "Transaction broadcast failed."), w')
       /\ trace w' =
            [] ++ [Log ERROR "All transaction broadcast attempts failed." []]
       /\ count is_post (trace w') = 0%nat
       /\ count is_sleep (trace w') = 0%nat
       /\ sent w' = 0%nat
       /\ clock w' = 1700000000.
Proof.
  split; [reflexivity|].
  apply (broadcast_zero_attempts no_retry_Config 1%positive
           (world_with_signed_payment accepting_endpoint)).
  reflexivity.
Defined.


(** ** Event listener *)

Lemma world_eta (w : world) :
  World (heap w) (trace w) (clock w) (sent w) (remote w)
    {| running := running (event_listener w) |} = w.
Proof. destruct w as [h t c s r [b]]. reflexivity. Qed.

(** Calls to [stop_listening] clear the flag and log; nothing else. *)
Lemma run_calls_run (calls : list call) (w : world) :
  run_calls calls w =
    (Ok tt,
     World (heap w) (trace w ++ stopped_logs calls) (clock w) (sent w)
       (remote w)
       {| running := match calls with
                     | [] => running (event_listener w)
                     | _ => false
                     end |}).
Proof.
  revert w. induction calls as [|[] calls IH]; intros w.
  - simpl. rewrite app_nil_r, world_eta. reflexivity.
  - cbn [run_calls]. unfold mbind, M_bind, stop_listening, set_running, log, emit.
    simpl. rewrite IH. simpl. rewrite <- app_assoc.
    destruct calls; reflexivity.
Qed.

Lemma stopped_logs_no_fetch (calls : list call) :
  count is_fetch (stopped_logs calls) = 0%nat.
Proof. induction calls as [|c calls IH]; [reflexivity | exact IH]. Qed.

Section Polling.

(** The configuration in force and the callback the listener was built
    with. *)
Variable cfg : Config.
Variable callback : event -> handler_run.

(** Dispatching a batch ends normally or with the callback's exception; it
    fetches nothing. *)
Lemma for_each_event_run (events : list event) (w : world) :
  exists r w' t,
    for_each_event callback events w = (r, w')
    /\ trace w' = trace w ++ t
    /\ count is_fetch t = 0%nat.
Proof.
  revert w. induction events as [|ev events IH]; intros w.
  - exists (Ok tt), w, []. rewrite app_nil_r. repeat split.
  - cbn [for_each_event]. unfold mbind at 1, M_bind at 1.
    unfold invoke, mbind, M_bind, emit. rewrite run_calls_run.
    destruct (cb_raises (callback ev)) as [e|].
    + eexists _, _, _. split; [reflexivity|]. cbn [trace].
      rewrite <- app_assoc. split; [reflexivity|].
      rewrite count_app, stopped_logs_no_fetch. reflexivity.
    + unfold mret, M_ret.
      match goal with |- context [for_each_event _ _ ?w1] =>
        destruct (IH w1) as (r & w' & t & Hrun & Ht & Hc)
      end.
      exists r, w', ([Callback ev] ++ stopped_logs (cb_calls (callback ev)) ++ t).
      split; [exact Hrun|]. rewrite Ht. cbn [trace].
      rewrite <- !app_assoc. split; [reflexivity|].
      rewrite !count_app, stopped_logs_no_fetch, Hc. reflexivity.
Qed.

(** One turn of the loop always completes: one fetch, whatever the batch
    and the callback do, then the sleep and what other tasks do during it. *)
Lemma poll_once_run (c : cycle) (w : world) :
  exists w' t,
    poll_once cfg callback c w = (Ok tt, w')
    /\ trace w' =
         trace w ++ Fetch :: t
           ++ Sleep (EVENT_POLL_INTERVAL cfg) :: stopped_logs (during_sleep c)
    /\ count is_fetch t = 0%nat
    /\ (during_sleep c <> [] -> running (event_listener w') = false).
Proof.
  unfold poll_once, try_except, await_events.
  unfold mbind, M_bind, emit. rewrite run_calls_run.
  destruct (fetched c) as [e | events].
  - unfold raise, log_exception, log, emit, sleep. rewrite run_calls_run.
    eexists _, (stopped_logs (during_fetch c) ++ [_]).
    split; [reflexivity|]. cbn [trace event_listener running]. split.
    + rewrite <- !app_assoc. reflexivity.
    + split.
      * rewrite count_app, stopped_logs_no_fetch. reflexivity.
      * destruct (during_sleep c); [congruence | reflexivity].
  - unfold mret, M_ret.
    match goal with |- context [for_each_event _ _ ?w1] =>
      destruct (for_each_event_run events w1)
        as (r & w2 & t & Hrun & Ht & Hc)
    end.
    rewrite Hrun. cbn [trace] in Ht.
    destruct r as [[]|e].
    + unfold sleep. rewrite run_calls_run.
      eexists _, (stopped_logs (during_fetch c) ++ t).
      split; [reflexivity|]. cbn [trace event_listener running].
      rewrite Ht. split.
      * rewrite <- !app_assoc. reflexivity.
      * split.
        -- rewrite count_app, stopped_logs_no_fetch, Hc. reflexivity.
        -- destruct (during_sleep c); [congruence | reflexivity].
    + unfold log_exception, log, emit, sleep. rewrite run_calls_run.
      eexists _, (stopped_logs (during_fetch c) ++ t ++ [_]).
      split; [reflexivity|]. cbn [trace event_listener running].
      rewrite Ht. split.
      * rewrite <- !app_assoc. reflexivity.
      * split.
        -- rewrite !count_app, stopped_logs_no_fetch, Hc. reflexivity.
        -- destruct (during_sleep c); [congruence | reflexivity].
Qed.

(** At the top of the loop with the flag cleared, the coroutine returns:
    nothing is fetched, dispatched or logged, whatever the schedule holds. *)
Lemma loop_not_running (schedule : list cycle) (w : world) :
  running (event_listener w) = false ->
  listening_loop cfg callback schedule w = (Ok Returned, w).
Proof.
  intros Hoff. destruct schedule; cbn [listening_loop];
    unfold mbind, M_bind, get_running; rewrite Hoff; reflexivity.
Qed.

(** At the top of the loop with the flag set, one turn runs and the loop is
    back at its top. *)
Lemma loop_turn (c : cycle) (rest : list cycle) (w w1 : world) :
  running (event_listener w) = true ->
  poll_once cfg callback c w = (Ok tt, w1) ->
  listening_loop cfg callback (c :: rest) w = listening_loop cfg callback rest w1.
Proof.
  intros Hon Hturn. cbn [listening_loop].
  unfold mbind at 1, M_bind at 1, get_running. rewrite Hon.
  unfold mbind at 1, M_bind at 1. rewrite Hturn. reflexivity.
Qed.

(** If the loop is still polling after the turns of [pre], it is at its top
    with the flag set, has fetched once per turn, and goes on with whatever
    turns follow. *)
Lemma loop_prefix (pre : list cycle) :
  forall w,
    fst (listening_loop cfg callback pre w) = Ok StillPolling ->
    exists w1,
      running (event_listener w1) = true
      /\ count is_fetch (trace w1) = (count is_fetch (trace w) + length pre)%nat
      /\ forall more,
           listening_loop cfg callback (pre ++ more) w =
             listening_loop cfg callback more w1.
Proof.
  induction pre as [|c pre IH]; intros w Hpolling.
  - destruct (running (event_listener w)) eqn:Hon.
    + exists w. rewrite Nat.add_0_r. auto.
    + rewrite loop_not_running in Hpolling by exact Hon. discriminate.
  - destruct (running (event_listener w)) eqn:Hon.
    + destruct (poll_once_run c w) as (w2 & t & Hturn & Ht & Hc & _).
      rewrite (loop_turn c pre w w2 Hon Hturn) in Hpolling.
      destruct (IH w2 Hpolling) as (w1 & Hon1 & Hcount & Hmore).
      exists w1. split; [exact Hon1|]. split.
      * rewrite Hcount, Ht, !count_app.
        change (Fetch :: t ++ Sleep (EVENT_POLL_INTERVAL cfg)
                  :: stopped_logs (during_sleep c))
          with ([Fetch] ++ t ++ [Sleep (EVENT_POLL_INTERVAL cfg)]
                  ++ stopped_logs (during_sleep c)).
        rewrite !count_app, Hc, stopped_logs_no_fetch. unfold count. simpl. lia.
      * intros more. rewrite <- Hmore. simpl.
        apply (loop_turn c (pre ++ more) w w2 Hon Hturn).
    + rewrite loop_not_running in Hpolling by exact Hon. discriminate.
Qed.

(** C7: if [stop_listening] is called while the loop sleeps after a turn,
    the loop fetches no more: it returns at its next test of the flag, the
    sleep and the stop being the last effects, and the turns that would
    have followed play no part. In general, once the flag is false at the
    top of the loop, the loop returns without fetching or dispatching. *)
Theorem stop_during_sleep_ends_polling (pre : list cycle) (c : cycle)
    (rest : list cycle) (w : world) :
  fst (start_listening cfg callback pre w) = Ok StillPolling ->
  In StopListening (during_sleep c) ->
  exists w',
    start_listening cfg callback (pre ++ c :: rest) w = (Ok Returned, w')
    /\ start_listening cfg callback (pre ++ [c]) w = (Ok Returned, w')
    /\ count is_fetch (trace w') =
         (count is_fetch (trace w) + length pre + 1)%nat
    /\ (exists t,
          trace w' =
            t ++ Sleep (EVENT_POLL_INTERVAL cfg) :: stopped_logs (during_sleep c))
    /\ running (event_listener w') = false
    /\ (forall schedule,
          listening_loop cfg callback schedule w' = (Ok Returned, w')).
Proof.
  intros Hpolling Hstop.
  unfold start_listening, mbind, M_bind, set_running, log, emit in *.
  cbn beta iota in *.
  match type of Hpolling with context [listening_loop _ _ _ ?ws] =>
    set (started := ws) in *
  end.
  destruct (loop_prefix pre started Hpolling)
    as (w1 & Hon1 & Hcount & Hmore).
  destruct (poll_once_run c w1) as (w2 & t & Hturn & Ht & Hc & Hoff).
  assert (Hoff2 : running (event_listener w2) = false).
  { apply Hoff. intros Hnil. rewrite Hnil in Hstop. destruct Hstop. }
  exists w2. rewrite !Hmore.
  rewrite (loop_turn c rest w1 w2 Hon1 Hturn).
  rewrite (loop_turn c [] w1 w2 Hon1 Hturn).
  rewrite !loop_not_running by exact Hoff2.
  split; [reflexivity|]. split; [reflexivity|]. split.
  - rewrite Ht.
    change (Fetch :: t ++ Sleep (EVENT_POLL_INTERVAL cfg)
              :: stopped_logs (during_sleep c))
      with ([Fetch] ++ t ++ [Sleep (EVENT_POLL_INTERVAL cfg)]
              ++ stopped_logs (during_sleep c)).
    rewrite !count_app, Hc, stopped_logs_no_fetch, Hcount.
    subst started. cbn [trace]. rewrite count_app. unfold count. simpl. lia.
  - split.
    + exists (trace w1 ++ Fetch :: t). rewrite Ht, <- app_assoc. reflexivity.
    + split; [exact Hoff2|].
      intros schedule. apply loop_not_running. exact Hoff2.
Qed.

End Polling.

Lemma stop_during_sleep_ends_polling_witness :
  exists w',
    start_listening default_Config quiet_callback
      ([ {| fetched := inr [sample_event]; during_fetch := [];
            during_sleep := [] |} ]
         ++ placeholder_cycle [StopListening]
         :: [ {| fetched := inr [sample_event]; during_fetch := [];
                 during_sleep := [] |} ])
      (initial_world accepting_endpoint) = (Ok Returned, w')
    /\ start_listening default_Config quiet_callback
         ([ {| fetched := inr [sample_event]; during_fetch := [];
               during_sleep := [] |} ]
            ++ [placeholder_cycle [StopListening]])
         (initial_world accepting_endpoint) = (Ok Returned, w')
    /\ count is_fetch (trace w') = (0 + 1 + 1)%nat
    /\ (exists t,
          trace w' = t ++ Sleep 10 :: stopped_logs [StopListening])
    /\ running (event_listener w') = false
    /\ (forall schedule,
          listening_loop default_Config quiet_callback schedule w'
            = (Ok Returned, w')).
Proof.
  apply (stop_during_sleep_ends_polling default_Config quiet_callback
           [ {| fetched := inr [sample_event]; during_fetch := [];
                during_sleep := [] |} ]
           (placeholder_cycle [StopListening])
           [ {| fetched := inr [sample_event]; during_fetch := [];
                during_sleep := [] |} ]
           (initial_world accepting_endpoint)).
  - reflexivity.
  - left. reflexivity.
Defined.

(** ** The facade, on the example of the module's [__main__] *)

(** A new SDK has the sample wallet. *)
Example DigiplayGamingSDK_init_default :
  fst (DigiplayGamingSDK_init None (initial_world accepting_endpoint))
    = Ok sample_sdk.
Proof. reflexivity. Qed.

(** Against an endpoint that accepts at once, a payment is built, signed and
    sent with one request and no delay. *)
Example send_payment_accepted :
  let run := send_payment default_Config sample_sdk
               "D8RecipientAddress0987654321" 0.1%float
               (initial_world accepting_endpoint) in
  fst run = Ok (JObj [("status", JStr "accepted")])
  /\ count is_post (trace (snd run)) = 1%nat
  /\ count is_sleep (trace (snd run)) = 0%nat
  /\ field (snd run) 1%positive "signature"
       = Some (VStr "signed_with_private_key").
Proof. repeat split; reflexivity. Qed.

(** With the source's placeholder fetch the callback is never called. *)
Example placeholder_fetch_dispatches_nothing :
  let run := start_listening default_Config quiet_callback
               [placeholder_cycle []; placeholder_cycle [StopListening]]
               (initial_world accepting_endpoint) in
  fst run = Ok Returned
  /\ count is_fetch (trace (snd run)) = 2%nat
  /\ count is_callback (trace (snd run)) = 0%nat.
Proof. repeat split; reflexivity. Qed.

(** * Further properties *)

(** ** Broadcaster, against any endpoint *)

Section BroadcasterAnyEndpoint.

Variable cfg : Config.
Variable tx : loc.
Variable d : gmap string pyval.

(** The run of the retry loop, whatever the endpoint does: the attempts
    that fail, each with its own error, then either the first attempt that
    succeeds or, with none left, the exhaustion. The store, the listener
    and the endpoint are left as they were. *)
Lemma broadcast_attempts_shape (remaining : nat) :
  forall (attempt : Z) (w : world),
    heap w !! tx = Some d ->
    exists (errors : list pyexc) (r : result json) (w' : world),
      broadcast_attempts cfg tx attempt remaining w = (r, w')
      /\ (forall k e, errors !! k = Some e ->
            attempt_result (remote w (sent w + k)%nat) = inl e)
      /\ heap w' = heap w
      /\ event_listener w' = event_listener w
      /\ ((exists data,
             r = Ok data
             /\ attempt_result (remote w (sent w + length errors)%nat) = inr data
             /\ (length errors < remaining)%nat
             /\ trace w' =
                  trace w ++ failed_attempts cfg d attempt errors
                    ++ successful_attempt cfg d
             /\ sent w' = (sent w + length errors + 1)%nat)
          \/ (r = Raise (Exception "Transaction broadcast failed.")
              /\ length errors = remaining
              /\ trace w' =
                   trace w ++ failed_attempts cfg d attempt errors
                     ++ [Log ERROR "All transaction broadcast attempts failed." []]
              /\ sent w' = (sent w + remaining)%nat)).
Proof.
  induction remaining as [|remaining IH]; intros attempt w Hl.
  - exists [], (Raise (Exception "Transaction broadcast failed.")).
    eexists. split; [apply attempts_exhausted|].
    split; [intros k e Hk; discriminate|]. split; [reflexivity|].
    split; [reflexivity|]. right. simpl. rewrite Nat.add_0_r. auto.
  - destruct (attempt_result (remote w (sent w))) as [e | data] eqn:Hres.
    + rewrite (attempt_failed cfg tx d attempt remaining e w Hl Hres).
      match goal with |- context [broadcast_attempts _ _ _ _ ?w1] =>
        destruct (IH (attempt + 1) w1 Hl)
          as (errors & r & w' & Hrun & Herr & Hh & Hev & Hcase)
      end.
      exists (e :: errors), r, w'. split; [exact Hrun|]. split.
      { intros [|k] e' Hk; simpl in Hk.
        - inversion Hk; subst. rewrite Nat.add_0_r. exact Hres.
        - specialize (Herr k e' Hk). simpl in Herr.
          rewrite <- Herr. f_equal. f_equal. lia. }
      split; [exact Hh|]. split; [exact Hev|].
      cbn [trace sent remote length] in Hcase.
      destruct Hcase as [(data & Hr & Hok & Hlt & Ht & Hs)
                        | (Hr & Hlen & Ht & Hs)].
      * left. exists data. split; [exact Hr|]. split.
        { rewrite <- Hok. f_equal. f_equal. simpl. lia. }
        split; [simpl; lia|]. split.
        { rewrite Ht. cbn [failed_attempts]. rewrite <- !app_assoc.
          reflexivity. }
        simpl. lia.
      * right. split; [exact Hr|]. split; [simpl; lia|]. split.
        { rewrite Ht. cbn [failed_attempts]. rewrite <- !app_assoc.
          reflexivity. }
        lia.
    + rewrite (attempt_succeeded cfg tx d attempt remaining data w Hl Hres).
      exists [], (Ok data). eexists. split; [reflexivity|].
      split; [intros k e Hk; discriminate|]. split; [reflexivity|].
      split; [reflexivity|]. left. exists data. simpl.
      rewrite Nat.add_0_r. split; [reflexivity|]. split; [exact Hres|].
      split; [lia|]. split; [reflexivity | lia].
Qed.

Lemma failed_attempts_requests (errors : list pyexc) (attempt : Z)
    (u : string) (b : gmap string pyval) (t : Z) :
  In (Post u b t) (failed_attempts cfg d attempt errors) ->
  u = broadcast_url cfg /\ b = d /\ t = 10.
Proof.
  revert attempt. induction errors as [|e errors IH]; intros attempt Hin.
  - destruct Hin.
  - cbn [failed_attempts] in Hin. apply in_app_or in Hin.
    destruct Hin as [Hin | Hin]; [|eapply IH; eassumption].
    simpl in Hin. destruct Hin as [H | [H | [H | []]]]; try discriminate.
    inversion H; subst. auto.
Qed.



(** X2: a negative [RETRY_ATTEMPTS] is like 0. [range(n)] is empty for
    every [n <= 0], so the exception is raised at once, with no request
    and no delay. *)
Theorem broadcast_nonpositive_attempts (w : world) :
  RETRY_ATTEMPTS cfg <= 0 ->
  exists w',
    broadcast_transaction cfg tx w =
      (Raise (Exception "Transaction broadcast failed."), w')
    /\ trace w' =
         trace w ++ [Log ERROR "All transaction broadcast attempts failed." []]
    /\ sent w' = sent w.
Proof.
  intros Hcfg. unfold broadcast_transaction.
  replace (Z.to_nat (RETRY_ATTEMPTS cfg)) with 0%nat by lia.
  rewrite attempts_exhausted. eexists. split; [reflexivity|]. split; reflexivity.
Qed.


(** X4: every request [broadcast_transaction] sends is a POST to
    [DIGIBYTE_API_URL + "/broadcast"] with the record as its JSON body and a
    timeout of 10 seconds, on the first attempt as on every retry. *)
Theorem broadcast_requests_carry_record (w : world) (u : string)
    (b : gmap string pyval) (t : Z) :
  heap w !! tx = Some d ->
  In (Post u b t) (trace (snd (broadcast_transaction cfg tx w))) ->
  In (Post u b t) (trace w)
  \/ (u = String.append (DIGIBYTE_API_URL cfg) "/broadcast" /\ b = d /\ t = 10).
Proof.
  intros Hl Hin. unfold broadcast_transaction in Hin.
  destruct (broadcast_attempts_shape (Z.to_nat (RETRY_ATTEMPTS cfg)) 0 w Hl)
    as (errors & r & w' & Hrun & _ & _ & _ & Hcase).
  rewrite Hrun in Hin. cbn [snd] in Hin.
  assert (Hshape : exists tail,
             trace w' = trace w ++ failed_attempts cfg d 0 errors ++ tail
             /\ (tail = successful_attempt cfg d
                 \/ tail = [Log ERROR "All transaction broadcast attempts failed." []])).
  { destruct Hcase as [(data & _ & _ & _ & Ht & _) | (_ & _ & Ht & _)];
      eexists; (split; [exact Ht|]); auto. }
  destruct Hshape as (tail & Ht & Htail). rewrite Ht in Hin.
  apply in_app_or in Hin. destruct Hin as [Hin | Hin]; [left; exact Hin|].
  right. apply in_app_or in Hin. destruct Hin as [Hin | Hin].
  - apply (failed_attempts_requests errors 0 u b t Hin).
  - destruct Htail as [-> | ->]; simpl in Hin.
    + destruct Hin as [H | [H | []]]; [|discriminate].
      inversion H; subst. auto.
    + destruct Hin as [H | []]. discriminate.
Qed.


End BroadcasterAnyEndpoint.

(** *** Concrete runs *)


Lemma broadcast_nonpositive_attempts_witness :
  RETRY_ATTEMPTS negative_retry_Config <= 0
  /\ exists w',
       broadcast_transaction negative_retry_Config 1%positive
         (world_with_signed_payment accepting_endpoint) =
         (Raise (Exception "Transaction broadcast failed."), w')
       /\ trace w' =
            [] ++ [Log ERROR "All transaction broadcast attempts failed." []]
       /\ sent w' = 0%nat.
Proof.
  split; [discriminate|].
  apply (broadcast_nonpositive_attempts negative_retry_Config 1%positive
           (world_with_signed_payment accepting_endpoint)).
  discriminate.
Defined.


Lemma broadcast_requests_carry_record_witness :
  In (Post "https://api.digibyte.io/broadcast" signed_payment 10) []
  \/ ("https://api.digibyte.io/broadcast"
        = String.append (DIGIBYTE_API_URL default_Config) "/broadcast"
      /\ signed_payment = signed_payment /\ 10 = 10).
Proof.
  apply (broadcast_requests_carry_record default_Config 1%positive
           signed_payment (world_with_signed_payment accepting_endpoint)
           "https://api.digibyte.io/broadcast" signed_payment 10).
  - reflexivity.
  - left. reflexivity.
Defined.


(** ** Building and signing, composed *)

Lemma fresh_after_insert (h : gmap loc (gmap string pyval))
    (d : gmap string pyval) :
  fresh (dom (<[fresh (dom h) := d]> h)) <> fresh (dom h).
Proof.
  intros Heq.
  apply (is_fresh (dom (<[fresh (dom h) := d]> h))).
  rewrite Heq. apply elem_of_dom. rewrite lookup_insert_eq. eauto.
Qed.

Lemma insert_fresh_keeps (h : gmap loc (gmap string pyval))
    (d d' : gmap string pyval) (l' : loc) :
  h !! l' = Some d' -> <[fresh (dom h) := d]> h !! l' = Some d'.
Proof.
  intros Hl'. rewrite lookup_insert_ne; [exact Hl'|].
  intros Heq. subst l'.
  apply (is_fresh (dom h)). apply elem_of_dom. eauto.
Qed.

(** X6: [create_transaction] makes a new object on every call. The record
    it returns was not in the store before, the records that were are kept
    as they are, a later call returns a different record, and its
    timestamp is the clock at the call, its fee 0.001 unless one is
    given. *)
Theorem create_transaction_allocates_fresh (self : TransactionManager)
    (to_address : string) (amount : float) (fee : option float) (w : world) :
  exists l w',
    create_transaction self to_address amount fee w = (Ok l, w')
    /\ heap w !! l = None
    /\ heap w' !! l =
         Some (transaction_record (address (wallet self)) to_address amount
                 (default DEFAULT_FEE fee) (clock w))
    /\ (forall l' d', heap w !! l' = Some d' -> heap w' !! l' = Some d')
    /\ (forall self2 to2 amount2 fee2,
          fst (create_transaction self2 to2 amount2 fee2 w') <> Ok l)
    /\ sent w' = sent w.
Proof.
  rewrite create_transaction_run. eexists _, _. split; [reflexivity|].
  split; [apply fresh_location_unused|]. cbn [heap sent].
  split; [apply lookup_insert_eq|]. split.
  - intros l' d'. apply insert_fresh_keeps.
  - split; [|reflexivity].
    intros self2 to2 amount2 fee2. rewrite create_transaction_run.
    cbn [fst heap]. intros Heq. inversion Heq as [Hfresh].
    exact (fresh_after_insert _ _ Hfresh).
Qed.

(** X7: building and then signing always succeeds and gives one object:
    the record built, with [signature] added and nothing else changed; the
    records that were in the store are kept as they are. *)
Theorem create_then_sign (self : TransactionManager) (to_address : string)
    (amount : float) (fee : option float) (w : world) :
  exists l w',
    (tx ← create_transaction self to_address amount fee;
     sign_transaction self tx) w = (Ok l, w')
    /\ heap w !! l = None
    /\ heap w' !! l =
         Some (signed (transaction_record (address (wallet self)) to_address
                         amount (default DEFAULT_FEE fee) (clock w)))
    /\ field w' l "signature" = Some (VStr "signed_with_private_key")
    /\ field w' l "from" = Some (VStr (address (wallet self)))
    /\ field w' l "to" = Some (VStr to_address)
    /\ (forall l' d', heap w !! l' = Some d' -> heap w' !! l' = Some d').
Proof.
  unfold mbind at 1, M_bind at 1. rewrite create_transaction_run.
  erewrite sign_transaction_run by (cbn [heap]; apply lookup_insert_eq).
  eexists _, _. split; [reflexivity|].
  split; [apply fresh_location_unused|].
  unfold field. cbn [heap]. rewrite lookup_insert_eq. cbn.
  split; [reflexivity|]. split; [reflexivity|]. split; [reflexivity|].
  split; [reflexivity|].
  intros l' d' Hl'. rewrite lookup_insert_ne.
  - apply insert_fresh_keeps. exact Hl'.
  - intros Heq. subst l'. rewrite fresh_location_unused in Hl'. discriminate.
Qed.

(** X8: signing is idempotent on the store. Signing a record a second time
    returns the same object and leaves every record as the first signing
    left it. *)
Theorem sign_transaction_idempotent (self : TransactionManager) (l : loc)
    (d : gmap string pyval) (w : world) :
  heap w !! l = Some d ->
  exists w1 w2,
    sign_transaction self l w = (Ok l, w1)
    /\ sign_transaction self l w1 = (Ok l, w2)
    /\ heap w2 = heap w1.
Proof.
  intros Hl. rewrite (sign_transaction_run self l d w Hl).
  eexists _, _. split; [reflexivity|].
  erewrite sign_transaction_run by (cbn [heap]; apply lookup_insert_eq).
  split; [reflexivity|]. cbn [heap].
  rewrite !insert_insert_eq. reflexivity.
Qed.

Lemma sign_transaction_idempotent_witness :
  exists w1 w2,
    sign_transaction sample_manager 1%positive world_with_payment
      = (Ok 1%positive, w1)
    /\ sign_transaction sample_manager 1%positive w1 = (Ok 1%positive, w2)
    /\ heap w2 = heap w1.
Proof.
  apply (sign_transaction_idempotent sample_manager 1%positive
           unsigned_payment world_with_payment).
  reflexivity.
Defined.

(** ** Tokens, composed *)

Lemma token_record_formats (issuer token_name : string)
    (total_supply timestamp : Z) :
  int_formats total_supply = true ->
  int_formats timestamp = true ->
  record_formats (token_record issuer token_name total_supply timestamp).
Proof.
  intros Hsupply Htime. unfold record_formats, token_record.
  repeat (apply map_Forall_insert_2; [first [exact I | assumption]|]).
  apply map_Forall_empty.
Qed.

(** X9: issuing a token and then transferring it, with ints the debug
    records can hold (supply, amount and timestamp of at most 4300 digits),
    succeeds and gives two different objects. The transfer record refers to
    the token object itself (no copy is taken), the token record is as it
    was issued, and the transfer's sender is the token's issuer. *)
Theorem transfer_of_created_token (self : TokenManager) (token_name : string)
    (total_supply : Z) (to_address : string) (amount : Z) (w : world) :
  int_formats (clock w) = true ->
  int_formats total_supply = true ->
  int_formats amount = true ->
  exists token transfer w',
    (tok ← create_token self token_name total_supply;
     tr ← transfer_token self tok to_address amount;
     mret (tok, tr)) w = (Ok (token, transfer), w')
    /\ token <> transfer
    /\ heap w !! token = None
    /\ heap w !! transfer = None
    /\ field w' transfer "token" = Some (VRef token)
    /\ field w' transfer "amount" = Some (VInt amount)
    /\ field w' token "token_name" = Some (VStr token_name)
    /\ field w' token "total_supply" = Some (VInt total_supply)
    /\ field w' token "issuer" = Some (VStr (address (tk_wallet self)))
    /\ field w' transfer "from" = field w' token "issuer".
Proof.
  intros Hclock Hsupply Hamount.
  unfold mbind at 1, M_bind at 1.
  rewrite (create_token_result self token_name total_supply w Hclock Hsupply).
  unfold mbind at 1, M_bind at 1.
  set (d := token_record (address (tk_wallet self)) token_name total_supply
              (clock w)).
  erewrite (transfer_token_result self (fresh (dom (heap w))) d);
    [ | exact Hclock | exact Hamount
      | cbn [heap]; apply lookup_insert_eq
      | apply token_record_formats; assumption ].
  eexists _, _, _. split; [reflexivity|]. cbn [heap clock].
  assert (Hne : fresh (dom (heap w))
                <> fresh (dom (<[fresh (dom (heap w)) := d]> (heap w)))).
  { intros Heq. symmetry in Heq. exact (fresh_after_insert _ _ Heq). }
  split; [exact Hne|]. split; [apply fresh_location_unused|]. split.
  { destruct (heap w !! fresh (dom (<[fresh (dom (heap w)) := d]> (heap w))))
      as [d'|] eqn:Hl'; [|reflexivity].
    exfalso.
    apply (is_fresh (dom (<[fresh (dom (heap w)) := d]> (heap w)))).
    apply elem_of_dom. rewrite (insert_fresh_keeps _ d d' _ Hl'). eauto. }
  unfold field. cbn [heap].
  rewrite lookup_insert_eq. rewrite lookup_insert_ne by congruence.
  rewrite lookup_insert_eq. subst d.
  split; [reflexivity|]. split; [reflexivity|]. split; [reflexivity|].
  split; [reflexivity|]. split; reflexivity.
Qed.

Lemma transfer_of_created_token_witness :
  exists token transfer w',
    (tok ← create_token sample_token_manager "GOLD" 1000000;
     tr ← transfer_token sample_token_manager tok
            "D8RecipientAddress0987654321" 250;
     mret (tok, tr)) (initial_world accepting_endpoint)
      = (Ok (token, transfer), w')
    /\ token <> transfer
    /\ heap (initial_world accepting_endpoint) !! token = None
    /\ heap (initial_world accepting_endpoint) !! transfer = None
    /\ field w' transfer "token" = Some (VRef token)
    /\ field w' transfer "amount" = Some (VInt 250)
    /\ field w' token "token_name" = Some (VStr "GOLD")
    /\ field w' token "total_supply" = Some (VInt 1000000)
    /\ field w' token "issuer" = Some (VStr "D8SampleAddress1234567890")
    /\ field w' transfer "from" = field w' token "issuer".
Proof.
  apply (transfer_of_created_token sample_token_manager "GOLD" 1000000
           "D8RecipientAddress0987654321" 250
           (initial_world accepting_endpoint)).
  - vm_compute. reflexivity.
  - vm_compute. reflexivity.
  - vm_compute. reflexivity.
Defined.

(** ** The facade *)

(** The world [send_payment] hands to the broadcaster: the record built
    and signed at a fresh location. *)
Lemma send_payment_run (cfg : Config) (self : DigiplayGamingSDK)
    (to_address : string) (amount : float) (w : world) :
  exists w1,
    send_payment cfg self to_address amount w =
      broadcast_transaction cfg (fresh (dom (heap w))) w1
    /\ heap w1 =
         <[fresh (dom (heap w)) :=
             signed (transaction_record (address (wallet (tx_manager self)))
                       to_address amount DEFAULT_FEE (clock w))]> (heap w)
    /\ count is_post (trace w1) = count is_post (trace w)
    /\ (forall u b t, In (Post u b t) (trace w1) -> In (Post u b t) (trace w))
    /\ sent w1 = sent w
    /\ remote w1 = remote w.
Proof.
  unfold send_payment. unfold mbind at 1, M_bind at 1.
  rewrite create_transaction_run. unfold mbind at 1, M_bind at 1.
  erewrite sign_transaction_run by (cbn [heap]; apply lookup_insert_eq).
  eexists. split; [reflexivity|]. cbn [heap trace sent remote].
  split; [apply insert_insert_eq|]. split.
  - rewrite !count_app. unfold count. simpl. lia.
  - split; [|split; reflexivity].
    intros u b t Hin. apply in_app_or in Hin. destruct Hin as [Hin | Hin].
    + apply in_app_or in Hin. destruct Hin as [Hin | Hin]; [exact Hin|].
      simpl in Hin. destruct Hin as [H | []]. discriminate.
    + simpl in Hin. destruct Hin as [H | []]. discriminate.
Qed.

(** X10: what [send_payment] submits is the record it built and signed.
    Whatever the endpoint does, the call ends; the signed record, with the
    default fee 0.001, is in the store afterwards (also when the broadcast
    fails: nothing is rolled back); every request sent has that record as
    its body; there are at most [RETRY_ATTEMPTS] requests; and the only
    exception that can come out is the exhaustion one. *)
Theorem send_payment_submits_signed_record (cfg : Config)
    (self : DigiplayGamingSDK) (to_address : string) (amount : float)
    (w : world) :
  exists (r : result json) (w' : world),
    send_payment cfg self to_address amount w = (r, w')
    /\ heap w' !! fresh (dom (heap w)) =
         Some (signed (transaction_record (address (wallet (tx_manager self)))
                         to_address amount DEFAULT_FEE (clock w)))
    /\ (forall u b t,
          In (Post u b t) (trace w') ->
          In (Post u b t) (trace w)
          \/ (u = String.append (DIGIBYTE_API_URL cfg) "/broadcast"
              /\ b = signed (transaction_record
                               (address (wallet (tx_manager self)))
                               to_address amount DEFAULT_FEE (clock w))
              /\ t = 10))
    /\ (count is_post (trace w')
          <= count is_post (trace w) + Z.to_nat (RETRY_ATTEMPTS cfg))%nat
    /\ (forall x, r = Raise x -> x = Exception "Transaction broadcast failed.").
Proof.
  destruct (send_payment_run cfg self to_address amount w)
    as (w1 & -> & Hh1 & Hp1 & Hin1 & _ & _).
  set (d := signed _) in *.
  assert (Hl : heap w1 !! fresh (dom (heap w)) = Some d).
  { rewrite Hh1. apply lookup_insert_eq. }
  unfold broadcast_transaction.
  destruct (broadcast_attempts_shape cfg _ d (Z.to_nat (RETRY_ATTEMPTS cfg)) 0
              w1 Hl)
    as (errors & r & w' & Hrun & _ & Hh & _ & Hcase).
  exists r, w'. split; [exact Hrun|]. rewrite Hh. split; [exact Hl|].
  destruct (count_failed_attempts cfg d errors 0) as [Hp _].
  assert (Hshape : exists tail,
             trace w' = trace w1 ++ failed_attempts cfg d 0 errors ++ tail
             /\ (tail = successful_attempt cfg d
                   /\ (length errors < Z.to_nat (RETRY_ATTEMPTS cfg))%nat
                 \/ tail = [Log ERROR "All transaction broadcast attempts failed." []]
                   /\ length errors = Z.to_nat (RETRY_ATTEMPTS cfg))).
  { destruct Hcase as [(data & _ & _ & Hlt & Ht & _) | (_ & Hlen & Ht & _)];
      eexists; (split; [exact Ht|]); auto. }
  destruct Hshape as (tail & Ht & Htail). split.
  - intros u b t Hin. rewrite Ht in Hin.
    apply in_app_or in Hin. destruct Hin as [Hin | Hin];
      [left; apply Hin1; exact Hin|].
    right. apply in_app_or in Hin. destruct Hin as [Hin | Hin].
    + apply (failed_attempts_requests cfg d errors 0 u b t Hin).
    + destruct Htail as [[-> _] | [-> _]]; simpl in Hin.
      * destruct Hin as [H | [H | []]]; [|discriminate].
        inversion H; subst. auto.
      * destruct Hin as [H | []]. discriminate.
  - split.
    + rewrite Ht, !count_app, Hp, Hp1.
      destruct Htail as [[-> Hlt] | [-> Hlen]]; unfold count; simpl; lia.
    + intros x ->.
      destruct Hcase as [(data & Hr & _) | (Hr & _)]; congruence.
Qed.

(** X11: a broadcast that runs dry comes out of [send_payment] as it is.
    If the endpoint fails every request, [send_payment] raises the
    exhaustion exception after exactly [RETRY_ATTEMPTS] requests, and the
    signed record stays in the store. *)
Theorem send_payment_exhausted (cfg : Config) (self : DigiplayGamingSDK)
    (to_address : string) (amount : float) (w : world) :
  (forall k, exists e, attempt_result (remote w k) = inl e) ->
  exists w',
    send_payment cfg self to_address amount w =
      (Raise (Exception "Transaction broadcast failed."), w')
    /\ count is_post (trace w') =
         (count is_post (trace w) + Z.to_nat (RETRY_ATTEMPTS cfg))%nat
    /\ sent w' = (sent w + Z.to_nat (RETRY_ATTEMPTS cfg))%nat.
Proof.
  intros Hfail.
  destruct (send_payment_run cfg self to_address amount w)
    as (w1 & -> & Hh1 & Hp1 & _ & Hs1 & Hr1).
  set (d := signed _) in *.
  assert (Hl : heap w1 !! fresh (dom (heap w)) = Some d).
  { rewrite Hh1. apply lookup_insert_eq. }
  destruct (broadcast_all_fail cfg _ d w1 Hl) as (errors & w' & Hrun & Hlen & Ht & Hs).
  { rewrite Hr1. exact Hfail. }
  destruct (count_failed_attempts cfg d errors 0) as [Hp _].
  exists w'. split; [exact Hrun|].
  rewrite Ht, !count_app, Hp, Hp1, Hlen, Hs, Hs1.
  split; [unfold count; simpl; lia | reflexivity].
Qed.

Lemma send_payment_exhausted_witness :
  exists w',
    send_payment default_Config sample_sdk "D8RecipientAddress0987654321"
      0.1%float (initial_world failing_endpoint) =
      (Raise (Exception "Transaction broadcast failed."), w')
    /\ count is_post (trace w') = (0 + 3)%nat
    /\ sent w' = (0 + 3)%nat.
Proof.
  apply (send_payment_exhausted default_Config sample_sdk
           "D8RecipientAddress0987654321" 0.1%float
           (initial_world failing_endpoint)).
  intros k. eexists. reflexivity.
Defined.

(** X12: initialising the SDK never fails and sends nothing. Both managers
    hold the wallet [Wallet] makes for the key, so a payment's sender and a
    token's issuer are the same address; no listener is attached. (The
    token is issued with ints its debug record can hold.) *)
Theorem DigiplayGamingSDK_init_shares_wallet (key : option string) (w : world) :
  exists sdk w',
    DigiplayGamingSDK_init key w = (Ok sdk, w')
    /\ fst (Wallet_init key w) = Ok (sdk_wallet sdk)
    /\ wallet (tx_manager sdk) = sdk_wallet sdk
    /\ tk_wallet (token_manager sdk) = sdk_wallet sdk
    /\ sdk_event_listener sdk = None
    /\ heap w' = heap w
    /\ sent w' = sent w
    /\ (forall to_address amount fee w2,
          exists tx w3,
            create_transaction (tx_manager sdk) to_address amount fee w2
              = (Ok tx, w3)
            /\ field w3 tx "from" = Some (VStr (address (sdk_wallet sdk))))
    /\ (forall name supply w2,
          int_formats (clock w2) = true ->
          int_formats supply = true ->
          exists tok w4,
            create_token (token_manager sdk) name supply w2 = (Ok tok, w4)
            /\ field w4 tok "issuer" = Some (VStr (address (sdk_wallet sdk)))).
Proof.
  assert (Hpaid : forall wl : Wallet,
            forall to_address amount fee w2,
            exists tx w3,
              create_transaction {| wallet := wl |} to_address amount fee w2
                = (Ok tx, w3)
              /\ field w3 tx "from" = Some (VStr (address wl))).
  { intros wl to_address amount fee w2. rewrite create_transaction_run.
    eexists _, _. split; [reflexivity|].
    unfold field. cbn [heap]. rewrite lookup_insert_eq. reflexivity. }
  assert (Hissued : forall wl : Wallet,
            forall name supply w2,
            int_formats (clock w2) = true ->
            int_formats supply = true ->
            exists tok w4,
              create_token {| tk_wallet := wl |} name supply w2 = (Ok tok, w4)
              /\ field w4 tok "issuer" = Some (VStr (address wl))).
  { intros wl name supply w2 Hclock Hsupply.
    rewrite (create_token_result _ name supply w2 Hclock Hsupply).
    eexists _, _. split; [reflexivity|].
    unfold field. cbn [heap]. rewrite lookup_insert_eq. reflexivity. }
  destruct key as [[|c k]|];
    (eexists _, _; split; [reflexivity|]; cbn;
     repeat (split; [reflexivity|]); split; [apply Hpaid | apply Hissued]).
Qed.

(** ** Event listener, turn by turn *)

Lemma dispatched_app (t1 t2 : list effect) :
  dispatched (t1 ++ t2) = dispatched t1 ++ dispatched t2.
Proof.
  induction t1 as [|e t1 IH]; [reflexivity|].
  destruct e; simpl; rewrite ?IH; reflexivity.
Qed.

Lemma stopped_logs_silent (calls : list call) :
  dispatched (stopped_logs calls) = []
  /\ count is_sleep (stopped_logs calls) = 0%nat
  /\ count is_fetch (stopped_logs calls) = 0%nat.
Proof.
  induction calls as [|c calls IH]; [repeat split|].
  destruct IH as (IHd & IHs & IHf). repeat split; assumption.
Qed.

Lemma after_calls_idle (self : BlockchainEventListener) :
  after_calls [] self = self.
Proof. destruct self. reflexivity. Qed.

Lemma run_calls_after (calls : list call) (w : world) :
  run_calls calls w =
    (Ok tt,
     World (heap w) (trace w ++ stopped_logs calls) (clock w) (sent w)
       (remote w) (after_calls calls (event_listener w))).
Proof. apply run_calls_run. Qed.

Section Turns.

Variable cfg : Config.
Variable callback : event -> handler_run.

(** One call of the callback: the dispatch is recorded, the callback's own
    calls on the listener take effect, and its exception, if any, is
    raised. *)
Lemma invoke_run (ev : event) (w : world) :
  invoke callback ev w =
    (match cb_raises (callback ev) with
     | Some e => Raise e
     | None => Ok tt
     end,
     World (heap w)
       (trace w ++ Callback ev :: stopped_logs (cb_calls (callback ev)))
       (clock w) (sent w) (remote w)
       (after_calls (cb_calls (callback ev)) (event_listener w))).
Proof.
  unfold invoke, mbind, M_bind, emit. rewrite run_calls_after.
  cbn [heap trace clock sent remote event_listener].
  rewrite <- app_assoc.
  destruct (cb_raises (callback ev)); reflexivity.
Qed.

Lemma for_each_event_cons (ev : event) (events : list event) (w : world) :
  for_each_event callback (ev :: events) w =
    match cb_raises (callback ev) with
    | Some e => (Raise e, snd (invoke callback ev w))
    | None => for_each_event callback events (snd (invoke callback ev w))
    end.
Proof.
  cbn [for_each_event]. unfold mbind at 1, M_bind at 1.
  rewrite invoke_run. destruct (cb_raises (callback ev)); reflexivity.
Qed.

(** The first phase of a turn never fails to reach the [try]'s end. *)
Lemma poll_once_fetch_failed (c : cycle) (e : pyexc) (w : world) :
  fetched c = inl e ->
  poll_once cfg callback c w =
    (Ok tt, end_of_turn cfg c (Some e) (after_fetch c w)).
Proof.
  intros Hf. unfold poll_once, try_except, await_events.
  unfold mbind, M_bind, emit. rewrite run_calls_after, Hf.
  unfold raise, log_exception, log, emit, sleep. rewrite run_calls_after.
  unfold end_of_turn, after_fetch, loop_error.
  cbn [heap trace clock sent remote event_listener].
  rewrite <- !app_assoc. reflexivity.
Qed.

Lemma poll_once_dispatched (c : cycle) (events : list event)
    (r : result unit) (w w2 : world) :
  fetched c = inr events ->
  for_each_event callback events (after_fetch c w) = (r, w2) ->
  poll_once cfg callback c w = (Ok tt, end_of_turn cfg c (raised r) w2).
Proof.
  intros Hf Hrun. unfold poll_once, try_except, await_events.
  unfold mbind, M_bind, emit. rewrite run_calls_after, Hf.
  unfold mret, M_ret.
  cbn [heap trace clock sent remote event_listener].
  replace ((trace w ++ [Fetch]) ++ stopped_logs (during_fetch c))
    with (trace w ++ Fetch :: stopped_logs (during_fetch c))
    by (rewrite <- app_assoc; reflexivity).
  fold (after_fetch c w). rewrite Hrun.
  destruct r as [[]|e]; unfold log_exception, log, emit, sleep;
    rewrite run_calls_after; unfold end_of_turn, loop_error, raised;
    cbn [heap trace clock sent remote event_listener];
    rewrite <- ?app_assoc; reflexivity.
Qed.

Lemma after_calls_stopped (calls : list call) (self : BlockchainEventListener) :
  running self = false -> running (after_calls calls self) = false.
Proof. intros Hoff. destruct calls; [exact Hoff | reflexivity]. Qed.

Lemma after_calls_called (calls : list call) (self : BlockchainEventListener) :
  In StopListening calls -> running (after_calls calls self) = false.
Proof. intros Hin. destruct calls; [destruct Hin | reflexivity]. Qed.

(** A batch on which the callback never raises is dispatched whole and in
    order; the flag is still set afterwards only if it was before and the
    callback called the listener on no event. *)
Lemma for_each_event_ok (events : list event) :
  forall w,
    (forall ev, In ev events -> cb_raises (callback ev) = None) ->
    exists w' t,
      for_each_event callback events w = (Ok tt, w')
      /\ trace w' = trace w ++ t
      /\ dispatched t = events
      /\ running (event_listener w') =
           running (event_listener w)
           && forallb (fun ev => negb (makes_calls callback ev)) events.
Proof.
  induction events as [|ev events IH]; intros w Hquiet.
  - exists w, []. rewrite app_nil_r, andb_true_r. repeat split.
  - rewrite for_each_event_cons, (Hquiet ev (or_introl eq_refl)).
    rewrite invoke_run. cbn [snd].
    match goal with |- context [for_each_event _ _ ?w1] =>
      destruct (IH w1) as (w' & t & Hrun & Ht & Hd & Hflag)
    end.
    { intros ev' Hin. apply Hquiet. right. exact Hin. }
    exists w', (Callback ev :: stopped_logs (cb_calls (callback ev)) ++ t).
    split; [exact Hrun|]. cbn [trace event_listener] in Ht, Hflag. split.
    { rewrite Ht, <- app_assoc. reflexivity. }
    split.
    { cbn [dispatched]. rewrite dispatched_app, Hd.
      destruct (stopped_logs_silent (cb_calls (callback ev))) as [-> _].
      reflexivity. }
    rewrite Hflag. cbn [forallb]. unfold makes_calls, after_calls.
    destruct (cb_calls (callback ev)); cbn [running negb];
      [reflexivity|]. rewrite andb_false_r. reflexivity.
Qed.

(** A batch in which the callback raises is dispatched up to the event it
    raises on, that event included, and no further. *)
Lemma for_each_event_raises (before : list event) (ev : event)
    (after : list event) (e : pyexc) :
  forall w,
    (forall ev', In ev' before -> cb_raises (callback ev') = None) ->
    cb_raises (callback ev) = Some e ->
    exists w' t,
      for_each_event callback (before ++ ev :: after) w = (Raise e, w')
      /\ trace w' = trace w ++ t
      /\ dispatched t = before ++ [ev].
Proof.
  induction before as [|ev0 before IH]; intros w Hquiet Hraise.
  - cbn [app]. rewrite for_each_event_cons, Hraise, invoke_run. cbn [snd].
    eexists _, (Callback ev :: stopped_logs (cb_calls (callback ev))).
    split; [reflexivity|]. cbn [trace]. split; [reflexivity|].
    cbn [dispatched].
    destruct (stopped_logs_silent (cb_calls (callback ev))) as [-> _].
    reflexivity.
  - cbn [app]. rewrite for_each_event_cons, (Hquiet ev0 (or_introl eq_refl)).
    rewrite invoke_run. cbn [snd].
    match goal with |- context [for_each_event _ _ ?w1] =>
      destruct (IH w1) as (w' & t & Hrun & Ht & Hd)
    end.
    { intros ev' Hin. apply Hquiet. right. exact Hin. }
    { exact Hraise. }
    exists w', (Callback ev0 :: stopped_logs (cb_calls (callback ev0)) ++ t).
    split; [exact Hrun|]. cbn [trace] in Ht. split.
    { rewrite Ht, <- app_assoc. reflexivity. }
    cbn [dispatched]. rewrite dispatched_app, Hd.
    destruct (stopped_logs_silent (cb_calls (callback ev0))) as [-> _].
    reflexivity.
Qed.

(** Whatever the callback does, a batch adds no fetch and no sleep. *)
Lemma for_each_event_counts (events : list event) :
  forall w,
    exists r w' t,
      for_each_event callback events w = (r, w')
      /\ trace w' = trace w ++ t
      /\ count is_fetch t = 0%nat
      /\ count is_sleep t = 0%nat.
Proof.
  induction events as [|ev events IH]; intros w.
  - exists (Ok tt), w, []. rewrite app_nil_r. repeat split.
  - rewrite for_each_event_cons, invoke_run. cbn [snd].
    destruct (stopped_logs_silent (cb_calls (callback ev))) as (_ & Hs & Hf).
    destruct (cb_raises (callback ev)) as [e|].
    + eexists _, _, (Callback ev :: stopped_logs (cb_calls (callback ev))).
      split; [reflexivity|]. split; [reflexivity|].
      change (Callback ev :: stopped_logs (cb_calls (callback ev)))
        with ([Callback ev] ++ stopped_logs (cb_calls (callback ev))).
      rewrite !count_app, Hs, Hf. split; reflexivity.
    + match goal with |- context [for_each_event _ _ ?w1] =>
        destruct (IH w1) as (r & w' & t & Hrun & Ht & Htf & Hts)
      end.
      exists r, w', (Callback ev :: stopped_logs (cb_calls (callback ev)) ++ t).
      split; [exact Hrun|]. cbn [trace] in Ht. split.
      { rewrite Ht, <- app_assoc. reflexivity. }
      change (Callback ev :: stopped_logs (cb_calls (callback ev)) ++ t)
        with ([Callback ev] ++ stopped_logs (cb_calls (callback ev)) ++ t).
      rewrite !count_app, Hs, Hf, Htf, Hts. split; reflexivity.
Qed.

(** A callback that never calls the listener leaves it as it is. *)
Lemma for_each_event_quiet (events : list event) :
  (forall ev, cb_calls (callback ev) = []) ->
  forall w,
    event_listener (snd (for_each_event callback events w)) = event_listener w.
Proof.
  intros Hquiet. induction events as [|ev events IH]; intros w.
  - reflexivity.
  - rewrite for_each_event_cons, invoke_run. cbn [snd].
    destruct (cb_raises (callback ev)) as [e|].
    + cbn [snd event_listener]. rewrite Hquiet. apply after_calls_idle.
    + rewrite IH. cbn [event_listener]. rewrite Hquiet.
      apply after_calls_idle.
Qed.

(** X13: the events of a batch reach the callback in the order they were
    fetched. In a turn whose fetch gives a batch on which the callback
    never raises, every event of the batch is dispatched, in order, before
    the sleep. *)
Theorem turn_dispatches_batch_in_order (c : cycle) (events : list event)
    (w : world) :
  fetched c = inr events ->
  (forall ev, In ev events -> cb_raises (callback ev) = None) ->
  exists w' t,
    poll_once cfg callback c w = (Ok tt, w')
    /\ trace w' =
         trace w ++ t
           ++ Sleep (EVENT_POLL_INTERVAL cfg) :: stopped_logs (during_sleep c)
    /\ dispatched t = events
    /\ dispatched (trace w') = dispatched (trace w) ++ events.
Proof.
  intros Hf Hquiet.
  destruct (for_each_event_ok events (after_fetch c w) Hquiet)
    as (w2 & t & Hrun & Ht & Hd & _).
  rewrite (poll_once_dispatched c events (Ok tt) w w2 Hf Hrun).
  destruct (stopped_logs_silent (during_fetch c)) as (Hdf & _ & _).
  destruct (stopped_logs_silent (during_sleep c)) as (Hds & _ & _).
  eexists _, (Fetch :: stopped_logs (during_fetch c) ++ t).
  split; [reflexivity|]. unfold end_of_turn, raised. cbn [trace app].
  rewrite Ht. unfold after_fetch. cbn [trace]. split.
  { rewrite <- !app_assoc. reflexivity. }
  split.
  { cbn [dispatched]. rewrite dispatched_app, Hdf, Hd. reflexivity. }
  rewrite !dispatched_app. cbn [dispatched]. rewrite Hdf, Hd, Hds.
  rewrite ?app_nil_r, <- ?app_assoc. reflexivity.
Qed.

(** X14: an exception of the callback ends the batch but not the turn.
    The events after the one the callback raised on are not dispatched;
    the exception is logged; the sleep is taken as usual. *)
Theorem callback_error_aborts_batch (c : cycle) (before : list event)
    (ev : event) (after : list event) (e : pyexc) (w : world) :
  fetched c = inr (before ++ ev :: after) ->
  (forall ev', In ev' before -> cb_raises (callback ev') = None) ->
  cb_raises (callback ev) = Some e ->
  exists w' t,
    poll_once cfg callback c w = (Ok tt, w')
    /\ trace w' =
         trace w ++ t
           ++ loop_error e
           :: Sleep (EVENT_POLL_INTERVAL cfg) :: stopped_logs (during_sleep c)
    /\ dispatched (trace w') = dispatched (trace w) ++ before ++ [ev].
Proof.
  intros Hf Hquiet Hraise.
  destruct (for_each_event_raises before ev after e (after_fetch c w)
              Hquiet Hraise)
    as (w2 & t & Hrun & Ht & Hd).
  rewrite (poll_once_dispatched c _ (Raise e) w w2 Hf Hrun).
  destruct (stopped_logs_silent (during_fetch c)) as (Hdf & _ & _).
  destruct (stopped_logs_silent (during_sleep c)) as (Hds & _ & _).
  eexists _, (Fetch :: stopped_logs (during_fetch c) ++ t).
  split; [reflexivity|]. unfold end_of_turn, raised. cbn [trace].
  rewrite Ht. unfold after_fetch. cbn [trace]. split.
  { cbn [app]. rewrite <- !app_assoc. cbn [app]. rewrite <- ?app_assoc.
    reflexivity. }
  rewrite !dispatched_app. cbn [dispatched]. rewrite Hdf, Hd, Hds.
  rewrite ?app_nil_r, <- ?app_assoc. reflexivity.
Qed.

(** X15: a failed fetch does not end the loop. With the flag set and
    nobody calling the listener, a turn whose fetch raises adds the fetch,
    the error record and the sleep, and the loop goes on with the next
    turn. *)
Theorem fetch_error_logged_and_loop_goes_on (e : pyexc) (rest : list cycle)
    (w : world) :
  running (event_listener w) = true ->
  listening_loop cfg callback (failing_fetch e :: rest) w =
    listening_loop cfg callback rest
      (World (heap w)
         (trace w ++ [Fetch; loop_error e; Sleep (EVENT_POLL_INTERVAL cfg)])
         (clock w + Z.max 0 (EVENT_POLL_INTERVAL cfg)) (sent w) (remote w)
         (event_listener w)).
Proof.
  intros Hon.
  rewrite (loop_turn cfg callback (failing_fetch e) rest w _ Hon
             (poll_once_fetch_failed (failing_fetch e) e w eq_refl)).
  unfold end_of_turn, after_fetch, failing_fetch, stopped_logs.
  cbn [heap trace clock sent remote event_listener during_fetch during_sleep
       map].
  rewrite !after_calls_idle, <- app_assoc. reflexivity.
Qed.

(** One turn, counted: it always completes, with one fetch and one
    sleep. *)
Lemma poll_once_counts (c : cycle) (w : world) :
  exists w',
    poll_once cfg callback c w = (Ok tt, w')
    /\ count is_fetch (trace w') = (count is_fetch (trace w) + 1)%nat
    /\ count is_sleep (trace w') = (count is_sleep (trace w) + 1)%nat
    /\ (during_sleep c <> [] -> running (event_listener w') = false).
Proof.
  destruct (stopped_logs_silent (during_fetch c)) as (_ & Hfs & Hff).
  destruct (stopped_logs_silent (during_sleep c)) as (_ & Hss & Hsf).
  assert (Hend : forall caught w2 t,
            trace w2 = trace (after_fetch c w) ++ t ->
            count is_fetch t = 0%nat -> count is_sleep t = 0%nat ->
            count is_fetch (trace (end_of_turn cfg c caught w2))
              = (count is_fetch (trace w) + 1)%nat
            /\ count is_sleep (trace (end_of_turn cfg c caught w2))
                 = (count is_sleep (trace w) + 1)%nat
            /\ (during_sleep c <> [] ->
                running (event_listener (end_of_turn cfg c caught w2)) = false)).
  { intros caught w2 t Ht Htf Hts. unfold end_of_turn. cbn [trace event_listener].
    rewrite Ht. unfold after_fetch. cbn [trace].
    change (Fetch :: stopped_logs (during_fetch c))
      with ([Fetch] ++ stopped_logs (during_fetch c)).
    change (Sleep (EVENT_POLL_INTERVAL cfg) :: stopped_logs (during_sleep c))
      with ([Sleep (EVENT_POLL_INTERVAL cfg)] ++ stopped_logs (during_sleep c)).
    rewrite !count_app, Hfs, Hff, Hss, Hsf, Htf, Hts.
    split; [|split].
    - destruct caught; unfold count; simpl; lia.
    - destruct caught; unfold count; simpl; lia.
    - intros Hne. destruct (during_sleep c); [congruence | reflexivity]. }
  destruct (fetched c) as [e | events] eqn:Hf.
  - rewrite (poll_once_fetch_failed c e w Hf). eexists. split; [reflexivity|].
    apply (Hend (Some e) (after_fetch c w) []); [|reflexivity|reflexivity].
    rewrite app_nil_r. reflexivity.
  - destruct (for_each_event_counts events (after_fetch c w))
      as (r & w2 & t & Hrun & Ht & Htf & Hts).
    rewrite (poll_once_dispatched c events r w w2 Hf Hrun).
    eexists. split; [reflexivity|]. apply (Hend (raised r) w2 t Ht Htf Hts).
Qed.

(** With the flag set and nobody calling the listener, the loop takes
    every turn of the schedule and is still polling. *)
Lemma loop_undisturbed (schedule : list cycle) :
  Forall undisturbed schedule ->
  (forall ev, cb_calls (callback ev) = []) ->
  forall ws,
    running (event_listener ws) = true ->
    exists w',
      listening_loop cfg callback schedule ws = (Ok StillPolling, w')
      /\ running (event_listener w') = true
      /\ count is_fetch (trace w') =
           (count is_fetch (trace ws) + length schedule)%nat.
Proof.
  intros Hund Hquiet.
  induction Hund as [|c schedule [Hcf Hcs] _ IH]; intros ws Hon.
  - exists ws. split.
    + cbn [listening_loop]. unfold mbind, M_bind, get_running.
      rewrite Hon. reflexivity.
    + split; [exact Hon | simpl; lia].
  - destruct (poll_once_counts c ws) as (w1 & Hturn & Hf1 & _ & _).
    rewrite (loop_turn cfg callback c schedule ws w1 Hon Hturn).
    assert (Hon1 : running (event_listener w1) = true).
    { destruct (fetched c) as [e | events] eqn:Hf.
      - rewrite (poll_once_fetch_failed c e ws Hf) in Hturn.
        inversion Hturn; subst w1. unfold end_of_turn, after_fetch.
        cbn [event_listener]. rewrite Hcf, Hcs, !after_calls_idle. exact Hon.
      - destruct (for_each_event callback events (after_fetch c ws))
          as [r w2] eqn:Hrun.
        rewrite (poll_once_dispatched c events r ws w2 Hf Hrun) in Hturn.
        inversion Hturn; subst w1. unfold end_of_turn.
        cbn [event_listener]. rewrite Hcs, after_calls_idle.
        pose proof (for_each_event_quiet events Hquiet (after_fetch c ws))
          as Hsame.
        rewrite Hrun in Hsame. cbn [snd] in Hsame. rewrite Hsame.
        unfold after_fetch. cbn [event_listener].
        rewrite Hcf, after_calls_idle. exact Hon. }
    destruct (IH w1 Hon1) as (w' & Hrun' & Hon' & Hc').
    exists w'. split; [exact Hrun'|]. split; [exact Hon'|].
    rewrite Hc', Hf1. simpl. lia.
Qed.

(** X16: the loop never returns on its own. If nobody calls the listener
    (no other task during the fetches and sleeps, and not the callback),
    [start_listening] is still polling after every turn of any schedule,
    one fetch per turn, whatever the fetches and the callback raise, and
    whether or not the listener had been stopped before. *)
Theorem loop_runs_until_stopped (schedule : list cycle) (w : world) :
  Forall undisturbed schedule ->
  (forall ev, cb_calls (callback ev) = []) ->
  exists w',
    start_listening cfg callback schedule w = (Ok StillPolling, w')
    /\ running (event_listener w') = true
    /\ count is_fetch (trace w') =
         (count is_fetch (trace w) + length schedule)%nat.
Proof.
  intros Hund Hquiet.
  unfold start_listening, mbind, M_bind, set_running, log, emit.
  cbn beta iota.
  match goal with |- context [listening_loop _ _ _ ?ws] =>
    destruct (loop_undisturbed schedule Hund Hquiet ws eq_refl)
      as (w' & Hrun & Hon & Hc)
  end.
  exists w'. split; [exact Hrun|]. split; [exact Hon|].
  rewrite Hc. cbn [trace]. rewrite count_app. unfold count. simpl. lia.
Qed.

Lemma rhythm_app (t1 t2 : list effect) :
  rhythm (t1 ++ t2) = rhythm t1 ++ rhythm t2.
Proof. apply List.filter_app. Qed.

Lemma rhythm_silent (t : list effect) :
  count is_fetch t = 0%nat -> count is_sleep t = 0%nat -> rhythm t = [].
Proof.
  induction t as [|e t IH]; intros Hf Hs; [reflexivity|].
  unfold count in *. destruct e; simpl in *; try discriminate; auto.
Qed.

(** One turn, in order: the fetch comes first and the sleep after it, with
    no other fetch or sleep in the turn. *)
Lemma poll_once_rhythm (c : cycle) (w : world) :
  exists w',
    poll_once cfg callback c w = (Ok tt, w')
    /\ rhythm (trace w') =
         rhythm (trace w) ++ [Fetch; Sleep (EVENT_POLL_INTERVAL cfg)].
Proof.
  destruct (stopped_logs_silent (during_fetch c)) as (_ & Hfs & Hff).
  destruct (stopped_logs_silent (during_sleep c)) as (_ & Hss & Hsf).
  assert (Hend : forall caught w2 t,
            trace w2 = trace (after_fetch c w) ++ t ->
            count is_fetch t = 0%nat -> count is_sleep t = 0%nat ->
            rhythm (trace (end_of_turn cfg c caught w2))
              = rhythm (trace w) ++ [Fetch; Sleep (EVENT_POLL_INTERVAL cfg)]).
  { intros caught w2 t Ht Htf Hts. unfold end_of_turn. cbn [trace].
    rewrite Ht. unfold after_fetch. cbn [trace].
    change (Fetch :: stopped_logs (during_fetch c))
      with ([Fetch] ++ stopped_logs (during_fetch c)).
    change (Sleep (EVENT_POLL_INTERVAL cfg) :: stopped_logs (during_sleep c))
      with ([Sleep (EVENT_POLL_INTERVAL cfg)] ++ stopped_logs (during_sleep c)).
    rewrite !rhythm_app.
    rewrite (rhythm_silent (stopped_logs (during_fetch c)) Hff Hfs).
    rewrite (rhythm_silent (stopped_logs (during_sleep c)) Hsf Hss).
    rewrite (rhythm_silent t Htf Hts).
    destruct caught; cbn; rewrite ?app_nil_r, <- ?app_assoc; reflexivity. }
  destruct (fetched c) as [e | events] eqn:Hf.
  - rewrite (poll_once_fetch_failed c e w Hf). eexists. split; [reflexivity|].
    apply (Hend (Some e) (after_fetch c w) []); [|reflexivity|reflexivity].
    rewrite app_nil_r. reflexivity.
  - destruct (for_each_event_counts events (after_fetch c w))
      as (r & w2 & t & Hrun & Ht & Htf & Hts).
    rewrite (poll_once_dispatched c events r w w2 Hf Hrun).
    eexists. split; [reflexivity|]. apply (Hend (raised r) w2 t Ht Htf Hts).
Qed.

(** X17: what the fetch or the callback raises never comes out of the loop
    (the exceptions of this model are the [Exception] instances, which the
    loop catches), and the loop never fetches twice without sleeping in
    between. Over any schedule, with any callback, the loop ends normally
    after some number of turns, at most the schedule's length; the fetches
    and sleeps it adds to the trace are, in order, fetch, sleep of the poll
    interval, fetch, sleep, ..., one pair per turn; it returns only with
    the flag cleared and is still polling only with the flag set. *)
Theorem one_sleep_per_fetch (schedule : list cycle) :
  forall w,
    exists (status : loop_status) (w' : world) (turns : nat),
      listening_loop cfg callback schedule w = (Ok status, w')
      /\ (turns <= length schedule)%nat
      /\ rhythm (trace w') = rhythm (trace w) ++ turns_rhythm cfg turns
      /\ count is_fetch (trace w') = (count is_fetch (trace w) + turns)%nat
      /\ count is_sleep (trace w') = (count is_sleep (trace w) + turns)%nat
      /\ match status with
         | Returned => running (event_listener w') = false
         | StillPolling =>
             running (event_listener w') = true /\ turns = length schedule
         end.
Proof.
  induction schedule as [|c schedule IH]; intros w.
  - destruct (running (event_listener w)) eqn:Hon.
    + exists StillPolling, w, 0%nat. cbn [listening_loop].
      unfold mbind, M_bind, get_running. rewrite Hon.
      rewrite !Nat.add_0_r, app_nil_r. repeat split; auto; simpl; lia.
    + exists Returned, w, 0%nat. rewrite loop_not_running by exact Hon.
      rewrite !Nat.add_0_r, app_nil_r. repeat split; auto; simpl; lia.
  - destruct (running (event_listener w)) eqn:Hon.
    + destruct (poll_once_counts c w) as (w1 & Hturn & Hf1 & Hs1 & _).
      destruct (poll_once_rhythm c w) as (w1' & Hturn' & Hr1).
      assert (Hsame : w1' = w1) by congruence. subst w1'.
      rewrite (loop_turn cfg callback c schedule w w1 Hon Hturn).
      destruct (IH w1)
        as (status & w' & turns & Hrun & Hle & Hr & Hf & Hs & Hst).
      exists status, w', (S turns). split; [exact Hrun|].
      split; [simpl; lia|]. split.
      { rewrite Hr, Hr1, <- app_assoc. reflexivity. }
      split; [lia|]. split; [lia|].
      destruct status; [exact Hst|]. destruct Hst as [Hon' ->].
      split; [exact Hon' | reflexivity].
    + exists Returned, w, 0%nat. rewrite loop_not_running by exact Hon.
      rewrite !Nat.add_0_r, app_nil_r. repeat split; auto; simpl; lia.
Qed.

(** X18: a stop takes effect at the next test of the flag, not before. If
    [stop_listening] is called while the fetch is awaited, or by the
    callback on an event of the batch, the turn still runs to its end: the
    whole batch is dispatched (the callback raising on none of it) and the
    sleep is taken; then the loop returns, and later turns play no part. *)
Theorem stop_within_turn_completes_turn (c : cycle) (events : list event)
    (rest : list cycle) (w : world) :
  running (event_listener w) = true ->
  fetched c = inr events ->
  (forall ev, In ev events -> cb_raises (callback ev) = None) ->
  (In StopListening (during_fetch c)
   \/ exists ev, In ev events /\ In StopListening (cb_calls (callback ev))) ->
  exists w' t,
    listening_loop cfg callback (c :: rest) w = (Ok Returned, w')
    /\ trace w' =
         t ++ Sleep (EVENT_POLL_INTERVAL cfg) :: stopped_logs (during_sleep c)
    /\ dispatched (trace w') = dispatched (trace w) ++ events
    /\ count is_fetch (trace w') = (count is_fetch (trace w) + 1)%nat.
Proof.
  intros Hon Hf Hquiet Hstop.
  destruct (for_each_event_ok events (after_fetch c w) Hquiet)
    as (w2 & t & Hrun & Ht & Hd & Hflag).
  pose proof (poll_once_dispatched c events (Ok tt) w w2 Hf Hrun) as Hturn.
  set (wend := end_of_turn cfg c (raised (Ok tt)) w2) in *.
  rewrite (loop_turn cfg callback c rest w wend Hon Hturn).
  assert (Hoff2 : running (event_listener w2) = false).
  { rewrite Hflag. destruct Hstop as [Hin | (ev & Hin & Hcall)].
    - unfold after_fetch. cbn [event_listener].
      rewrite (after_calls_called _ _ Hin). reflexivity.
    - apply andb_false_iff. right. apply not_true_is_false. intros Hall.
      rewrite forallb_forall in Hall. specialize (Hall ev Hin).
      unfold makes_calls in Hall.
      destruct (cb_calls (callback ev)); [destruct Hcall | discriminate]. }
  assert (Hoff : running (event_listener wend) = false).
  { unfold wend, end_of_turn. cbn [event_listener].
    apply after_calls_stopped. exact Hoff2. }
  rewrite (loop_not_running cfg callback rest wend Hoff).
  destruct (poll_once_counts c w) as (w1 & Hturn1 & Hf1 & _ & _).
  assert (Hw1 : w1 = wend) by congruence. subst w1.
  destruct (stopped_logs_silent (during_fetch c)) as (Hdf & _ & _).
  destruct (stopped_logs_silent (during_sleep c)) as (Hds & _ & _).
  exists wend, (trace w2). split; [reflexivity|].
  split; [reflexivity|]. split; [|exact Hf1].
  unfold wend, end_of_turn, raised. cbn [trace app].
  rewrite Ht. unfold after_fetch. cbn [trace].
  rewrite !dispatched_app. cbn [dispatched]. rewrite Hdf, Hd, Hds.
  rewrite ?app_nil_r, <- ?app_assoc. reflexivity.
Qed.

End Turns.

(** *** Concrete turns *)

Lemma turn_dispatches_batch_in_order_witness :
  exists w' t,
    poll_once default_Config quiet_callback
      (batch [sample_event; second_event]) polling_world = (Ok tt, w')
    /\ trace w' =
         trace polling_world ++ t
           ++ Sleep (EVENT_POLL_INTERVAL default_Config)
           :: stopped_logs (during_sleep (batch [sample_event; second_event]))
    /\ dispatched t = [sample_event; second_event]
    /\ dispatched (trace w') =
         dispatched (trace polling_world) ++ [sample_event; second_event].
Proof.
  apply (turn_dispatches_batch_in_order default_Config quiet_callback
           (batch [sample_event; second_event]) [sample_event; second_event]
           polling_world).
  - reflexivity.
  - intros ev _. reflexivity.
Defined.

Lemma callback_error_aborts_batch_witness :
  exists w' t,
    poll_once default_Config picky_callback
      (batch ([sample_event] ++ second_event :: [sample_event]))
      polling_world = (Ok tt, w')
    /\ trace w' =
         trace polling_world ++ t
           ++ loop_error handler_error
           :: Sleep (EVENT_POLL_INTERVAL default_Config)
           :: stopped_logs
                (during_sleep
                   (batch ([sample_event] ++ second_event :: [sample_event])))
    /\ dispatched (trace w') =
         dispatched (trace polling_world) ++ [sample_event] ++ [second_event].
Proof.
  apply (callback_error_aborts_batch default_Config picky_callback
           (batch ([sample_event] ++ second_event :: [sample_event]))
           [sample_event] second_event [sample_event] handler_error
           polling_world).
  - reflexivity.
  - intros ev' [<- | []]. reflexivity.
  - reflexivity.
Defined.

Lemma fetch_error_logged_and_loop_goes_on_witness :
  running (event_listener polling_world) = true
  /\ listening_loop default_Config quiet_callback
       (failing_fetch timeout_error :: [batch [sample_event]]) polling_world =
     listening_loop default_Config quiet_callback [batch [sample_event]]
       (World (heap polling_world)
          (trace polling_world
             ++ [Fetch; loop_error timeout_error;
                 Sleep (EVENT_POLL_INTERVAL default_Config)])
          (clock polling_world + Z.max 0 (EVENT_POLL_INTERVAL default_Config))
          (sent polling_world) (remote polling_world)
          (event_listener polling_world)).
Proof.
  split; [reflexivity|].
  apply (fetch_error_logged_and_loop_goes_on default_Config quiet_callback
           timeout_error [batch [sample_event]] polling_world).
  reflexivity.
Defined.

Lemma loop_runs_until_stopped_witness :
  exists w',
    start_listening default_Config picky_callback
      [batch [sample_event; second_event]; failing_fetch timeout_error;
       placeholder_cycle []]
      (initial_world accepting_endpoint) = (Ok StillPolling, w')
    /\ running (event_listener w') = true
    /\ count is_fetch (trace w') = (0 + 3)%nat.
Proof.
  apply (loop_runs_until_stopped default_Config picky_callback
           [batch [sample_event; second_event]; failing_fetch timeout_error;
            placeholder_cycle []]
           (initial_world accepting_endpoint)).
  - repeat constructor.
  - intros ev. unfold picky_callback.
    destruct (ev !! "type") as [[kind | | |]|]; try reflexivity.
    destruct (String.eqb kind "token_transfer"); reflexivity.
Defined.

Lemma stop_within_turn_completes_turn_witness :
  exists w' t,
    listening_loop default_Config quiet_callback
      (stopped_while_fetching :: [batch [second_event]]) polling_world
      = (Ok Returned, w')
    /\ trace w' =
         t ++ Sleep (EVENT_POLL_INTERVAL default_Config)
           :: stopped_logs (during_sleep stopped_while_fetching)
    /\ dispatched (trace w') = dispatched (trace polling_world) ++ [sample_event]
    /\ count is_fetch (trace w') = (0 + 1)%nat.
Proof.
  apply (stop_within_turn_completes_turn default_Config quiet_callback
           stopped_while_fetching [sample_event] [batch [second_event]]
           polling_world).
  - reflexivity.
  - reflexivity.
  - intros ev _. reflexivity.
  - left. left. reflexivity.
Defined.

(** X19: a stop requested before the loop starts is lost.
    [start_listening] sets the flag itself, so after [stop_listening] and
    then [start_listening], with nobody calling the listener during the
    run, the loop takes every turn of the schedule and is still polling. *)
Theorem stop_before_start_is_lost (cfg : Config)
    (callback : event -> handler_run) (schedule : list cycle) (w : world) :
  Forall undisturbed schedule ->
  (forall ev, cb_calls (callback ev) = []) ->
  exists w0 w',
    stop_listening w = (Ok tt, w0)
    /\ running (event_listener w0) = false
    /\ (stop_listening;; start_listening cfg callback schedule) w
         = (Ok StillPolling, w')
    /\ running (event_listener w') = true
    /\ count is_fetch (trace w') =
         (count is_fetch (trace w) + length schedule)%nat.
Proof.
  intros Hund Hquiet.
  unfold start_listening, stop_listening, mbind, M_bind, set_running, log, emit.
  cbn beta iota.
  match goal with |- context [listening_loop _ _ _ ?ws] =>
    destruct (loop_undisturbed cfg callback schedule Hund Hquiet ws eq_refl)
      as (w' & Hrun & Hon & Hc)
  end.
  eexists _, w'. split; [reflexivity|]. split; [reflexivity|].
  split; [exact Hrun|]. split; [exact Hon|].
  rewrite Hc. cbn [trace]. rewrite !count_app. unfold count. simpl. lia.
Qed.

Lemma stop_before_start_is_lost_witness :
  exists w0 w',
    stop_listening (initial_world accepting_endpoint) = (Ok tt, w0)
    /\ running (event_listener w0) = false
    /\ (stop_listening;;
        start_listening default_Config quiet_callback
          [placeholder_cycle []; placeholder_cycle []])
         (initial_world accepting_endpoint) = (Ok StillPolling, w')
    /\ running (event_listener w') = true
    /\ count is_fetch (trace w') = (0 + 2)%nat.
Proof.
  apply (stop_before_start_is_lost default_Config quiet_callback
           [placeholder_cycle []; placeholder_cycle []]
           (initial_world accepting_endpoint)).
  - repeat constructor.
  - intros ev. reflexivity.
Defined.
